(** * The [Sound] component of react-hifi: audio graph construction and
      reconciliation

    A shallow embedding of [src/components/Sound/index.tsx].

    - JavaScript numbers are idealised as exact rationals ([Q]): arithmetic
      and comparisons are exact, [NaN] and the infinities are outside the
      model, and so is what produces them (a key that is not a number, a
      division by zero, which [Q] answers with [0]).  An optional property
      ([number | undefined]) is an [option Q].
    - The equalizer ([Record<string, number>]) is the list of its entries
      in the order [Object.keys] / [Object.entries] enumerate them.
    - The component instance is a record of the fields the methods read and
      write, together with a log of the commands issued to the
      collaborators (audio element, audio graph nodes, animation frames,
      callbacks), most recent last.
    - The builtins the source calls but does not define ([Number] on a
      key, number-to-string conversion, the node returned by
      [createBiquadFilter]) are parameters of the section. *)

From Stdlib Require Import QArith Qround Qabs ZArith Lia Lqa DecimalString.
From stdpp Require Import base list strings.

Local Open Scope Q_scope.

(** ** Numbers *)

(** [a < b] on numbers, as a boolean. *)
Definition Qltb (a b : Q) : bool := negb (Qle_bool b a).

(** Truthiness of [number | undefined]: [undefined] and [0] are falsy. *)
Definition truthy (x : option Q) : bool :=
  match x with
  | Some q => negb (Qeq_bool q 0)
  | None => false
  end.

(** [x !== y] on [number | undefined]. *)
Definition strict_neq (x y : option Q) : bool :=
  match x, y with
  | Some a, Some b => negb (Qeq_bool a b)
  | None, None => false
  | _, _ => true
  end.

(** [x !== y] on [string | undefined]. *)
Definition strict_neq_str (x y : option string) : bool :=
  match x, y with
  | Some a, Some b => negb (String.eqb a b)
  | None, None => false
  | _, _ => true
  end.

(** [Math.round]: the nearest integer, halves rounded up. *)
Definition Math_round (x : Q) : Z := Qfloor (x + (1 # 2)).

(** [i > freq] and [i < bound] where the right operand may be [undefined]:
    a comparison with [undefined] is false. *)
Definition gt_opt (i : Q) (freq : option Q) : bool :=
  match freq with Some f => Qltb f i | None => false end.

Definition lt_opt (i : Q) (bound : option Q) : bool :=
  match bound with Some b => Qltb i b | None => false end.

Definition le_opt (i : Q) (bound : option Q) : bool :=
  match bound with Some b => Qle_bool i b | None => false end.

(** ** Data model *)

(** [enum SoundStatus] *)
Module SoundStatus.
Definition PAUSED : string := "PAUSED".
Definition PLAYING : string := "PLAYING".
Definition STOPPED : string := "STOPPED".
End SoundStatus.

(** [interface ISoundProps].  A callback is represented by its presence. *)
Record ISoundProps := {
  url : string;
  playStatus : option string;
  position : option Q;
  volume : option Q;
  onPlaying : bool;
  onFinishedPlaying : bool;
  onLoading : bool;
  onLoad : bool;
  onVisualizationChange : bool;
  equalizer : option (list (string * Q));
  preAmp : option Q;
  stereoPan : option Q
}.

(** The props of [<Sound url=... equalizer=... preAmp=... />]: every
    other property is left out. *)
Definition equalizerProps (equalizer : option (list (string * Q)))
    (preAmp : option Q) : ISoundProps :=
  {| url := "sound.mp3"; playStatus := None; position := None;
     volume := None; onPlaying := false; onFinishedPlaying := false;
     onLoading := false; onLoad := false; onVisualizationChange := false;
     equalizer := equalizer; preAmp := preAmp; stereoPan := None |}.

(** The props of [<Sound url=... position=... />]. *)
Definition positionProps (position : option Q) : ISoundProps :=
  {| url := "sound.mp3"; playStatus := None; position := position;
     volume := None; onPlaying := false; onFinishedPlaying := false;
     onLoading := false; onLoad := false; onVisualizationChange := false;
     equalizer := None; preAmp := None; stereoPan := None |}.

Definition Object_keys (o : list (string * Q)) : list string := o.*1.
Definition Object_values (o : list (string * Q)) : list Q := o.*2.
Definition Object_entries (o : list (string * Q)) : list (string * Q) := o.

(** The values of [BiquadFilterNode.type] the component meets. *)
Inductive BiquadFilterType := lowpass | lowshelf | highshelf | peaking.

(** The parameters of a [BiquadFilterNode] the component writes. *)
Record BiquadFilterNode := {
  type : BiquadFilterType;
  frequency_value : Q;
  gain_value : Q;
  Q_value : Q
}.

Definition set_type (t : BiquadFilterType) (f : BiquadFilterNode) :=
  {| type := t; frequency_value := frequency_value f;
     gain_value := gain_value f; Q_value := Q_value f |}.
Definition set_frequency (v : Q) (f : BiquadFilterNode) :=
  {| type := type f; frequency_value := v;
     gain_value := gain_value f; Q_value := Q_value f |}.
Definition set_gain (v : Q) (f : BiquadFilterNode) :=
  {| type := type f; frequency_value := frequency_value f;
     gain_value := v; Q_value := Q_value f |}.
Definition set_Q (v : Q) (f : BiquadFilterNode) :=
  {| type := type f; frequency_value := frequency_value f;
     gain_value := gain_value f; Q_value := v |}.

(** The nodes of the audio graph.  A filter is named by its position in
    [this.filters]. *)
Inductive AudioNode :=
| SourceNode
| GainNode
| BiquadNode (idx : nat)
| AnalyserNode
| PannerNode
| DestinationNode.

(** Commands issued to the collaborators. *)
Inductive Effect :=
| audio_play
| audio_pause
| audio_set_currentTime (t : Q)
| gain_set (v : Q)
| pan_set (v : Q)
| filter_gain_set (idx : nat) (v : Q)
| filter_undefined (idx : nat)
| request_animation_frame (h : positive)
| cancel_animation_frame (h : option positive)
| get_byte_frequency_data
| visualization_change (data : list (option Z)).

(** How a method ends: normally, or by the [TypeError] of reading a
    property of [undefined]. *)
Inductive Completion := Normal | TypeError.

(** The fields of a [Sound] instance, the analyser's current spectrum and
    the next animation frame handle of the host, and the command log. *)
Record Sound := {
  gainNode_gain : Q;
  filters : list BiquadFilterNode;
  qValues : list (option Q);
  stereoPanner_pan : Q;
  animationFrame : option positive;
  frequencyData : list Z;
  connections : list (AudioNode * AudioNode);
  spectrum : list Z;
  nextFrame : positive;
  log : list Effect
}.

Definition with_gainNode_gain (v : Q) (s : Sound) : Sound :=
  {| gainNode_gain := v; filters := filters s; qValues := qValues s;
     stereoPanner_pan := stereoPanner_pan s;
     animationFrame := animationFrame s; frequencyData := frequencyData s;
     connections := connections s; spectrum := spectrum s;
     nextFrame := nextFrame s; log := log s |}.
Definition with_filters (v : list BiquadFilterNode) (s : Sound) : Sound :=
  {| gainNode_gain := gainNode_gain s; filters := v; qValues := qValues s;
     stereoPanner_pan := stereoPanner_pan s;
     animationFrame := animationFrame s; frequencyData := frequencyData s;
     connections := connections s; spectrum := spectrum s;
     nextFrame := nextFrame s; log := log s |}.
Definition with_qValues (v : list (option Q)) (s : Sound) : Sound :=
  {| gainNode_gain := gainNode_gain s; filters := filters s; qValues := v;
     stereoPanner_pan := stereoPanner_pan s;
     animationFrame := animationFrame s; frequencyData := frequencyData s;
     connections := connections s; spectrum := spectrum s;
     nextFrame := nextFrame s; log := log s |}.
Definition with_stereoPanner_pan (v : Q) (s : Sound) : Sound :=
  {| gainNode_gain := gainNode_gain s; filters := filters s;
     qValues := qValues s; stereoPanner_pan := v;
     animationFrame := animationFrame s; frequencyData := frequencyData s;
     connections := connections s; spectrum := spectrum s;
     nextFrame := nextFrame s; log := log s |}.
Definition with_animationFrame (v : option positive) (s : Sound) : Sound :=
  {| gainNode_gain := gainNode_gain s; filters := filters s;
     qValues := qValues s; stereoPanner_pan := stereoPanner_pan s;
     animationFrame := v; frequencyData := frequencyData s;
     connections := connections s; spectrum := spectrum s;
     nextFrame := nextFrame s; log := log s |}.
Definition with_frequencyData (v : list Z) (s : Sound) : Sound :=
  {| gainNode_gain := gainNode_gain s; filters := filters s;
     qValues := qValues s; stereoPanner_pan := stereoPanner_pan s;
     animationFrame := animationFrame s; frequencyData := v;
     connections := connections s; spectrum := spectrum s;
     nextFrame := nextFrame s; log := log s |}.
Definition with_connections (v : list (AudioNode * AudioNode)) (s : Sound)
  : Sound :=
  {| gainNode_gain := gainNode_gain s; filters := filters s;
     qValues := qValues s; stereoPanner_pan := stereoPanner_pan s;
     animationFrame := animationFrame s; frequencyData := frequencyData s;
     connections := v; spectrum := spectrum s;
     nextFrame := nextFrame s; log := log s |}.
Definition with_nextFrame (v : positive) (s : Sound) : Sound :=
  {| gainNode_gain := gainNode_gain s; filters := filters s;
     qValues := qValues s; stereoPanner_pan := stereoPanner_pan s;
     animationFrame := animationFrame s; frequencyData := frequencyData s;
     connections := connections s; spectrum := spectrum s;
     nextFrame := v; log := log s |}.
Definition with_log (v : list Effect) (s : Sound) : Sound :=
  {| gainNode_gain := gainNode_gain s; filters := filters s;
     qValues := qValues s; stereoPanner_pan := stereoPanner_pan s;
     animationFrame := animationFrame s; frequencyData := frequencyData s;
     connections := connections s; spectrum := spectrum s;
     nextFrame := nextFrame s; log := v |}.

(** Issue a command. *)
Definition emit (e : Effect) (s : Sound) : Sound := with_log (log s ++ [e]) s.

(** [a.connect(b)] *)
Definition connect (a b : AudioNode) (s : Sound) : Sound :=
  with_connections (connections s ++ [(a, b)]) s.

(** [Array.prototype.forEach], with the index passed to the callback. *)
Fixpoint forEach {A St : Type} (f : A → nat → St → St) (l : list A)
    (i : nat) (s : St) : St :=
  match l with
  | [] => s
  | x :: l' => forEach f l' (S i) (f x i s)
  end.

(** [const HERTZ_ITER = 23.4] *)
Definition HERTZ_ITER : Q := 234 # 10.

(** The loop variables of [formatDataVizByFrequency]. *)
Record VizState := {
  viz_i : Q;
  currentIndex : nat;
  values : list (option Z)
}.

(** [data[idx]] on a typed array: [undefined] outside its bounds. *)
Definition data_at (data : list Z) (idx : Z) : option Z :=
  if (idx <? 0)%Z then None else data !! Z.to_nat idx.

(** ** A host and configurations for closed examples *)

(** [Number] on a key written in decimal digits. *)
Fixpoint digits_value (acc : Z) (s : string) : Z :=
  match s with
  | EmptyString => acc
  | String a s' =>
      digits_value (10 * acc + (Z.of_N (Ascii.N_of_ascii a) - 48))%Z s'
  end.

Definition Number_of_digits (s : string) : Q := inject_Z (digits_value 0 s).

(** The string of an integer: its decimal digits.  (Any other number is
    written as its reduced fraction, which no example relies on.) *)
Definition String_of_integer (q : Q) : string :=
  let r := Qred q in
  if (Zpos (Qden r) =? 1)%Z
  then NilZero.string_of_int (Z.to_int (Qnum r))
  else NilZero.string_of_int (Z.to_int (Qnum r))
       +:+ "/" +:+ NilZero.string_of_int (Z.to_int (Zpos (Qden r))).

(** A [BiquadFilterNode] as the Web Audio API creates it. *)
Definition defaultBiquadFilter : BiquadFilterNode :=
  {| type := lowpass; frequency_value := 350; gain_value := 0;
     Q_value := 1 |}.

(** The props of [<Sound url=... volume=... stereoPan=... />]. *)
Definition mixProps (volume stereoPan : option Q) : ISoundProps :=
  {| url := "sound.mp3"; playStatus := None; position := None;
     volume := volume; onPlaying := false; onFinishedPlaying := false;
     onLoading := false; onLoad := false; onVisualizationChange := false;
     equalizer := None; preAmp := None; stereoPan := stereoPan |}.

Definition bands1 : list (string * Q) := [("60", 0)].
Definition bands2 : list (string * Q) := [("60", 0); ("310", 0)].
Definition bands3 : list (string * Q) :=
  [("60", 0); ("310", 0); ("3000", 0)].
Definition bands3' : list (string * Q) :=
  [("60", 1); ("1000", 2); ("3000", 3)].
Definition bands4 : list (string * Q) :=
  [("60", 0); ("310", 0); ("3000", 0); ("14000", 0)].
Definition closeBands : list (string * Q) := [("60", 0); ("80", 0)].
Definition sharedBands : list (string * Q) :=
  [("60", 0); ("65", 0); ("3000", 0)].
Definition multipleBands : list (string * Q) :=
  [("60", 0); ("234", 0); ("3000", 0)].

(** A spectrum whose energy grows with the bin. *)
Definition ramp : list Z := (λ i, Z.of_nat i / 64)%Z <$> seq 0 (2 ^ 14).

(** ** The methods of the component *)

Section Component.

(** [Number(key)] on the keys of the equalizer. *)
Variable Number : string → Q.
(** The string of a number, as [Array.prototype.toString] produces it. *)
Variable String_of_number : Q → string.
(** The node [audioContext.createBiquadFilter()] returns. *)
Variable createBiquadFilter : BiquadFilterNode.

(** [!i || i === arr.length - 1] *)
Definition first_or_last (i n : nat) : bool :=
  (i =? 0)%nat || (i =? n - 1)%nat.

(** The callback of [Object.keys(equalizer).map] in [createFilterNodes]. *)
Definition qValue (arr : list string) (i : nat) (freq : string)
  : option Q :=
  if first_or_last i (length arr) then None
  else Some ((2 * Number freq)
             / Qabs (Number (arr !!! (i + 1)%nat)
                     - Number (arr !!! (i - 1)%nat))).

(** [this.qValues[i] as number], written to an audio parameter: [null]
    is coerced to [0]. *)
Definition as_number (q : option (option Q)) : Q :=
  match q with Some (Some v) => v | _ => 0 end.

(** The filter the callback of [Object.keys(equalizer).forEach] in
    [createFilterNodes] sets up; [entry] is [(freq, equalizer[freq])]
    and [qs] is [this.qValues]. *)
Definition newFilter (qs : list (option Q)) (preAmp : Q)
    (arr : list string) (entry : string * Q) (i : nat)
  : BiquadFilterNode :=
  let biquadFilter := createBiquadFilter in
  let biquadFilter := set_type peaking biquadFilter in
  let biquadFilter := set_frequency (Number entry.1) biquadFilter in
  let biquadFilter := set_gain (entry.2 + preAmp) biquadFilter in
  if first_or_last i (length arr)
  then set_type (if (i =? 0)%nat then lowshelf else highshelf)
         biquadFilter
  else set_Q (as_number (qs !! i)) biquadFilter.

(** The callback itself: the filter is connected after the last node of
    the chain (there is always one: the chain starts at the gain node) and
    pushed onto [this.filters]. *)
Definition createFilterNode (preAmp : Q) (arr : list string)
    (entry : string * Q) (i : nat) (acc : AudioNode * Sound)
  : AudioNode * Sound :=
  let (lastInChain, s) := acc in
  let biquadFilter := newFilter (qValues s) preAmp arr entry i in
  let node := BiquadNode (length (filters s)) in
  let s := connect lastInChain node s in
  (node, with_filters (filters s ++ [biquadFilter]) s).

Definition createFilterNodes (props : ISoundProps) (s : Sound)
  : AudioNode * Sound :=
  let lastInChain := GainNode in
  let preAmp := default 0 (preAmp props) in
  match equalizer props with
  | Some equalizer =>
      let s := with_qValues
                 (imap (qValue (Object_keys equalizer))
                    (Object_keys equalizer)) s in
      forEach (createFilterNode preAmp (Object_keys equalizer))
        (Object_entries equalizer) 0 (lastInChain, s)
  | None => (lastInChain, s)
  end.

(** The condition of the [for] loop of [formatDataVizByFrequency]. *)
Definition viz_cond (frequencies : list Q) (st : VizState) : bool :=
  le_opt (viz_i st) ((λ f, f + HERTZ_ITER) <$> last frequencies).

(** Its body, followed by the increment [i = i + HERTZ_ITER]. *)
Definition viz_body (frequencies : list Q) (data : list Z)
    (st : VizState) : VizState :=
  let i := viz_i st in
  let freq := frequencies !! currentIndex st in
  if gt_opt i freq && lt_opt i ((λ f, f + HERTZ_ITER) <$> freq)
  then {| viz_i := i + HERTZ_ITER;
          currentIndex := S (currentIndex st);
          values := values st
                    ++ [data_at data (Math_round (i / HERTZ_ITER))] |}
  else {| viz_i := i + HERTZ_ITER;
          currentIndex := currentIndex st;
          values := values st |}.

(** The loop, run for at most [fuel] iterations. *)
Fixpoint viz_loop (fuel : nat) (frequencies : list Q) (data : list Z)
    (st : VizState) : VizState :=
  match fuel with
  | O => st
  | S fuel' =>
      if viz_cond frequencies st
      then viz_loop fuel' frequencies data (viz_body frequencies data st)
      else st
  end.

(** A number of iterations the loop never reaches (see
    [viz_loop_exits]). *)
Definition viz_fuel (frequencies : list Q) : nat :=
  match last frequencies with
  | Some f => S (S (Z.to_nat (Qfloor ((f + HERTZ_ITER) / HERTZ_ITER))))
  | None => 1
  end.

Definition viz_init : VizState :=
  {| viz_i := 0; currentIndex := 0; values := [] |}.

Definition formatDataVizByFrequency (props : ISoundProps) (data : list Z)
  : list (option Z) :=
  match equalizer props with
  | Some equalizer =>
      let frequencies := Number <$> Object_keys equalizer in
      values (viz_loop (viz_fuel frequencies) frequencies data viz_init)
  | None => []
  end.

Definition handleVisualizationChange (props : ISoundProps) (s : Sound)
  : Sound :=
  let h := nextFrame s in
  let s := emit (request_animation_frame h) (with_nextFrame (Pos.succ h) s) in
  let s := with_animationFrame (Some h) s in
  let s := emit get_byte_frequency_data
             (with_frequencyData (spectrum s) s) in
  if onVisualizationChange props
  then emit (visualization_change
               (formatDataVizByFrequency props (frequencyData s))) s
  else s.

(** [play]: the command; the promise is settled later. *)
Definition play (props : ISoundProps) (s : Sound) : Sound :=
  emit audio_play s.

(** The [then] callback of [play]. *)
Definition play_then (props : ISoundProps) (s : Sound) : Sound :=
  if onVisualizationChange props && bool_decide (is_Some (equalizer props))
  then handleVisualizationChange props s
  else s.

Definition pause (props : ISoundProps) (s : Sound) : Sound :=
  let s := emit audio_pause s in
  match animationFrame s with
  | Some h => emit (cancel_animation_frame (Some h)) s
  | None => s
  end.

Definition stop (props : ISoundProps) (s : Sound) : Sound :=
  let s := pause props s in
  emit (audio_set_currentTime 0) s.

Definition setPlayerState (props : ISoundProps) (s : Sound) : Sound :=
  match playStatus props with
  | Some status =>
      if String.eqb status SoundStatus.PAUSED then pause props s
      else if String.eqb status SoundStatus.STOPPED then stop props s
      else play props s
  | None => play props s
  end.

Definition shouldUpdatePosition (prevProps props : ISoundProps) : bool :=
  let prevPosition := default 0 (position prevProps) in
  if truthy (position props)
  then
    let position := default 0 (position props) in
    let dif := position - prevPosition in
    Qltb position prevPosition || Qltb 1 dif
  else false.

(** [Object.entries(o).toString()]: the entries joined by commas, each
    entry being its key and its value joined by a comma. *)
Definition entries_toString (o : list (string * Q)) : string :=
  String.concat ","
    ((λ e, String.concat "," [e.1; String_of_number e.2])
       <$> Object_entries o).

Definition shouldUpdateEqualizer (prevProps props : ISoundProps) : bool :=
  match equalizer props, equalizer prevProps with
  | Some bands, Some prevEq =>
      negb (String.eqb (entries_toString bands) (entries_toString prevEq))
  | _, _ => false
  end
  || strict_neq (preAmp props) (preAmp prevProps).

Definition setVolume (props : ISoundProps) (s : Sound) : Sound :=
  let volume := default 100 (volume props) in
  emit (gain_set (volume / 100)) (with_gainNode_gain (volume / 100) s).

Definition setPosition (props : ISoundProps) (s : Sound) : Sound :=
  if truthy (position props)
  then emit (audio_set_currentTime (default 0 (position props))) s
  else s.

(** [this.props.stereoPan || 0] *)
Definition stereoPan_or_0 (props : ISoundProps) : Q :=
  if truthy (stereoPan props) then default 0 (stereoPan props) else 0.

Definition setStereoPan (props : ISoundProps) (s : Sound) : Sound :=
  emit (pan_set (stereoPan_or_0 props))
    (with_stereoPanner_pan (stereoPan_or_0 props) s).

(** The callback of [Object.values(equalizer).forEach] in
    [componentDidUpdate].  Reading [.gain] of a missing filter throws,
    which ends the iteration. *)
Definition patchGain (preAmp : Q) (value : Q) (idx : nat)
    (acc : Completion * Sound) : Completion * Sound :=
  match acc with
  | (TypeError, s) => (TypeError, s)
  | (Normal, s) =>
      match filters s !! idx with
      | Some f =>
          (Normal,
           emit (filter_gain_set idx (value + preAmp))
             (with_filters
                (<[idx := set_gain (value + preAmp) f]> (filters s)) s))
      | None => (TypeError, emit (filter_undefined idx) s)
      end
  end.

Definition updateVolume (prevProps props : ISoundProps) (s : Sound) :=
  if strict_neq (volume props) (volume prevProps)
  then setVolume props s else s.

Definition updatePosition (prevProps props : ISoundProps) (s : Sound) :=
  if shouldUpdatePosition prevProps props then setPosition props s else s.

Definition updatePlayerState (prevProps props : ISoundProps) (s : Sound) :=
  if strict_neq_str (playStatus props) (playStatus prevProps)
  then setPlayerState props s else s.

(** The destructured [stereoPan = 0] is compared with the raw
    [prevProps.stereoPan]. *)
Definition updateStereoPan (prevProps props : ISoundProps) (s : Sound) :=
  if strict_neq (Some (default 0 (stereoPan props))) (stereoPan prevProps)
  then setStereoPan props s else s.

Definition updateVisualization (prevProps props : ISoundProps)
    (s : Sound) :=
  let s :=
    if negb (onVisualizationChange prevProps)
       && onVisualizationChange props
       && bool_decide (is_Some (equalizer props))
    then handleVisualizationChange props s else s in
  if onVisualizationChange prevProps && negb (onVisualizationChange props)
  then emit (cancel_animation_frame (animationFrame s)) s
  else s.

Definition updateEqualizer (prevProps props : ISoundProps) (s : Sound)
  : Completion * Sound :=
  let equalizer := default [] (equalizer props) in
  let preAmp := default 0 (preAmp props) in
  if shouldUpdateEqualizer prevProps props
  then forEach (patchGain preAmp) (Object_values equalizer) 0 (Normal, s)
  else (Normal, s).

Definition componentDidUpdate (prevProps props : ISoundProps) (s : Sound)
  : Completion * Sound :=
  let s := updateVolume prevProps props s in
  let s := updatePosition prevProps props s in
  let s := updatePlayerState prevProps props s in
  let s := updateStereoPan prevProps props s in
  let s := updateVisualization prevProps props s in
  updateEqualizer prevProps props s.

(** [analyser.fftSize = 32768], hence [frequencyBinCount = 16384]. *)
Definition frequencyBinCount : nat := 2 ^ 14.

(** The nodes [componentDidMount] creates, in a host whose analyser holds
    [bins] and whose next animation frame handle is [frame], with the
    source connected to the gain node. *)
Definition newGraph (props : ISoundProps) (bins : list Z)
    (frame : positive) : Sound :=
  let s := {| gainNode_gain := 1; filters := []; qValues := [];
              stereoPanner_pan := stereoPan_or_0 props;
              animationFrame := None;
              frequencyData := replicate frequencyBinCount 0%Z;
              connections := []; spectrum := bins; nextFrame := frame;
              log := [] |} in
  connect SourceNode GainNode s.

Definition componentDidMount (props : ISoundProps) (bins : list Z)
    (frame : positive) : Sound :=
  let s := newGraph props bins frame in
  let (tail, s) := createFilterNodes props s in
  let s := connect tail AnalyserNode s in
  let s := connect AnalyserNode PannerNode s in
  let s := connect PannerNode DestinationNode s in
  let s := setVolume props s in
  let s := setPlayerState props s in
  setStereoPan props s.

(** ** Observations on a run *)

(** The commands issued between two states of the instance. *)
Definition issued (s s' : Sound) : list Effect :=
  drop (length (log s)) (log s').

(** The steps of [componentDidUpdate] before the equalizer's. *)
Definition updateTransport (prevProps props : ISoundProps) (s : Sound)
  : Sound :=
  updateVisualization prevProps props
    (updateStereoPan prevProps props
       (updatePlayerState prevProps props
          (updatePosition prevProps props
             (updateVolume prevProps props s)))).

(** [s'] is [s] after some more commands, all of them satisfying [P]. *)
Definition extends (P : Effect → Prop) (s s' : Sound) : Prop :=
  ∃ new, log s' = log s ++ new ∧ Forall P new.

(** The filter index a command reads, if any. *)
Definition accessed_index (e : Effect) : option nat :=
  match e with
  | filter_gain_set idx _ | filter_undefined idx => Some idx
  | _ => None
  end.

(** The transport commands among a list of commands. *)
Definition is_transport (e : Effect) : bool :=
  match e with
  | audio_play | audio_pause | audio_set_currentTime _ => true
  | _ => false
  end.

(** The state of the loop of [formatDataVizByFrequency] after [k]
    iterations. *)
Definition viz_state (frequencies : list Q) (data : list Z) (k : nat)
  : VizState :=
  Nat.iter k (viz_body frequencies data) viz_init.

(** The number of iterations of that loop: the checkpoints
    [0, HERTZ_ITER, ..., k * HERTZ_ITER, ...] not above the last
    frequency plus [HERTZ_ITER]. *)
Definition viz_iterations (frequencies : list Q) : nat :=
  match last frequencies with
  | Some f =>
      if Qle_bool 0 (f + HERTZ_ITER)
      then S (Z.to_nat (Qfloor ((f + HERTZ_ITER) / HERTZ_ITER)))
      else 0
  | None => 0
  end.

(** [i] lies strictly between the frequency of band [c] and that
    frequency plus [HERTZ_ITER]. *)
Definition in_window (frequencies : list Q) (c : nat) (i : Q) : Prop :=
  ∃ f, frequencies !! c = Some f ∧ f < i ∧ i < f + HERTZ_ITER.

(** The [k]-th checkpoint. *)
Definition checkpoint (k : nat) : Q := inject_Z (Z.of_nat k) * HERTZ_ITER.

(** The numbers of the checkpoints, among the first [k], at which a
    value was pushed. *)
Fixpoint viz_hits (frequencies : list Q) (data : list Z) (k : nat)
  : list nat :=
  match k with
  | O => []
  | S k' =>
      let st := viz_state frequencies data k' in
      if gt_opt (viz_i st) (frequencies !! currentIndex st)
         && lt_opt (viz_i st)
              ((λ f, f + HERTZ_ITER) <$> frequencies !! currentIndex st)
      then viz_hits frequencies data k' ++ [k']
      else viz_hits frequencies data k'
  end.

(** The connections [createFilterNodes] makes for [n] filters pushed from
    position [base] on, the first one fed by [last]. *)
Fixpoint chain (last : AudioNode) (base n : nat)
  : list (AudioNode * AudioNode) :=
  match n with
  | O => []
  | S n' => (last, BiquadNode base) :: chain (BiquadNode base) (S base) n'
  end.

(** The node such a chain ends with. *)
Definition chain_tail (last : AudioNode) (base n : nat) : AudioNode :=
  match n with
  | O => last
  | S m => BiquadNode (base + m)
  end.

(** The transport commands of a play status. *)
Definition playerCommands (status : option string) : list Effect :=
  match status with
  | Some status =>
      if String.eqb status SoundStatus.PAUSED then [audio_pause]
      else if String.eqb status SoundStatus.STOPPED
           then [audio_pause; audio_set_currentTime 0]
           else [audio_play]
  | None => [audio_play]
  end.

(** The update starts the visualization: the callback is new and there is
    an equalizer. *)
Definition startsVisualization (prevProps props : ISoundProps) : bool :=
  negb (onVisualizationChange prevProps)
  && onVisualizationChange props
  && bool_decide (is_Some (equalizer props)).

(** The bin right above a frequency. *)
Definition band_bin (f : Q) : nat :=
  Z.to_nat (Qfloor (f / HERTZ_ITER) + 1).


(** The commands selected by [f] that were issued between [s] and [s']
    are [l]. *)
Definition issues (f : Effect → bool) (s s' : Sound) (l : list Effect)
  : Prop :=
  ∃ new, log s' = log s ++ new ∧ List.filter f new = l.

(** The commands of a visualization tick. *)
Definition is_visualization (e : Effect) : bool :=
  match e with
  | request_animation_frame _ | get_byte_frequency_data
  | visualization_change _ => true
  | _ => false
  end.


(** The kind of the stage at index [i] of [n]. *)
Definition stageKind (i n : nat) : BiquadFilterType :=
  if first_or_last i n
  then (if (i =? 0)%nat then lowshelf else highshelf)
  else peaking.


(** ** Graph construction *)

(** The iteration pushes one filter per entry, in order, and touches
    neither [this.qValues] nor the command log. *)
Lemma forEach_createFilterNode preAmp arr l i last s :
  let r := forEach (createFilterNode preAmp arr) l i (last, s) in
  filters r.2
    = filters s
      ++ imap (λ j e, newFilter (qValues s) preAmp arr e (i + j)) l
  ∧ qValues r.2 = qValues s
  ∧ log r.2 = log s.
Proof.
  revert i last s.
  induction l as [|e l IH]; intros i last s; cbn.
  - by rewrite app_nil_r.
  - destruct (IH (S i) (BiquadNode (length (filters s)))
                (with_filters
                   (filters (connect last (BiquadNode (length (filters s))) s)
                    ++ [newFilter (qValues s) preAmp arr e i])
                   (connect last (BiquadNode (length (filters s))) s)))
      as (Hf & Hq & Hl).
    cbn in Hf, Hq, Hl.
    split_and!; [|done|done].
    rewrite Hf, <- app_assoc. cbn.
    rewrite Nat.add_0_r. do 2 f_equal.
    apply imap_ext. intros j x _. cbn. f_equal. lia.
Qed.

(** The filter list after [createFilterNodes]. *)
Lemma createFilterNodes_filters props bands s :
  equalizer props = Some bands →
  let s' := (createFilterNodes props s).2 in
  filters s'
    = filters s
      ++ imap (λ i e, newFilter (imap (qValue (Object_keys bands))
                                   (Object_keys bands))
                        (default 0 (preAmp props)) (Object_keys bands) e i)
           bands
  ∧ qValues s' = imap (qValue (Object_keys bands)) (Object_keys bands)
  ∧ log s' = log s.
Proof.
  intros Heq. unfold createFilterNodes. rewrite Heq.
  unfold Object_entries.
  pose proof (forEach_createFilterNode (default 0 (preAmp props))
                (Object_keys bands) bands 0 GainNode
                (with_qValues (imap (qValue (Object_keys bands))
                                 (Object_keys bands)) s)) as H.
  cbn in H. exact H.
Qed.

Lemma length_Object_keys (bands : list (string * Q)) :
  length (Object_keys bands) = length bands.
Proof. unfold Object_keys. by rewrite length_fmap. Qed.

Lemma first_or_last_true i n :
  first_or_last i n = true ↔ i = 0%nat ∨ i = (n - 1)%nat.
Proof.
  unfold first_or_last. rewrite orb_true_iff, !Nat.eqb_eq. tauto.
Qed.

Lemma first_or_last_false i n :
  first_or_last i n = false ↔ i ≠ 0%nat ∧ i ≠ (n - 1)%nat.
Proof.
  unfold first_or_last. rewrite orb_false_iff, !Nat.eqb_neq. tauto.
Qed.

(** C1.  Built on an empty filter list from an equalizer of [n ≥ 1]
    entries, the chain has exactly [n] stages, stage [i] carrying the
    frequency and the gain (plus pre-amp) of entry [i]; stage [0] is a
    low shelf, stage [n-1] (when it is not stage [0]) a high shelf, and
    every stage in between is peaking.  With a single entry the only
    stage is a low shelf whose Q is the one of a fresh node, the derived
    Q value being [null]. *)
Theorem createFilterNodes_stage_kinds props bands s :
  equalizer props = Some bands →
  bands ≠ [] →
  filters s = [] →
  let s' := (createFilterNodes props s).2 in
  let n := length bands in
  length (filters s') = n
  ∧ (∀ i e, bands !! i = Some e →
       ∃ f, filters s' !! i = Some f
            ∧ frequency_value f = Number e.1
            ∧ gain_value f = e.2 + default 0 (preAmp props)
            ∧ (i = 0%nat → type f = lowshelf)
            ∧ (i ≠ 0%nat → i = (n - 1)%nat → type f = highshelf)
            ∧ (i ≠ 0%nat → i ≠ (n - 1)%nat → type f = peaking))
  ∧ (n = 1%nat →
       ∃ f, filters s' = [f]
            ∧ type f = lowshelf
            ∧ Q_value f = Q_value createBiquadFilter
            ∧ qValues s' = [None]).
Proof.
  intros Heq Hne Hnil s' n.
  destruct (createFilterNodes_filters props bands s Heq) as (Hf & Hq & _).
  fold s' in Hf, Hq. rewrite Hnil in Hf. cbn in Hf.
  split_and!.
  - by rewrite Hf, length_imap.
  - intros i e Hi. rewrite Hf, list_lookup_imap, Hi. cbn.
    eexists; split; [reflexivity|].
    unfold newFilter. rewrite length_Object_keys. fold n.
    destruct (first_or_last i n) eqn:Hfl.
    + apply first_or_last_true in Hfl.
      destruct (i =? 0)%nat eqn:H0.
      * apply Nat.eqb_eq in H0. cbn. split_and!; try done.
      * apply Nat.eqb_neq in H0. cbn. split_and!; try done.
        intros _ Hn. destruct Hfl; done.
    + apply first_or_last_false in Hfl. destruct Hfl as [H0 Hn].
      cbn. split_and!; done.
  - intros Hn. subst n. destruct bands as [|e [|e' bands]]; try done.
    rewrite Hf, Hq. cbn. eexists; split; [reflexivity|].
    by cbn.
Qed.


(** C2.  The derived Q of every interior index [i] is
    [(2 * freq_i) / |freq_(i+1) - freq_(i-1)|] and it is the Q written
    to stage [i]; the derived Q of the first and of the last index is
    [null], and the Q of those stages is left as created. *)
Theorem createFilterNodes_qValues props bands s :
  equalizer props = Some bands →
  filters s = [] →
  let s' := (createFilterNodes props s).2 in
  let arr := Object_keys bands in
  let n := length arr in
  length (qValues s') = n
  ∧ (∀ i fp f fn,
       (0 < i)%nat → (i < n - 1)%nat →
       arr !! (i - 1)%nat = Some fp → arr !! i = Some f →
       arr !! (i + 1)%nat = Some fn →
       let q := (2 * Number f) / Qabs (Number fn - Number fp) in
       qValues s' !! i = Some (Some q)
       ∧ ∃ stage, filters s' !! i = Some stage ∧ Q_value stage = q)
  ∧ (∀ i, (i < n)%nat → i = 0%nat ∨ i = (n - 1)%nat →
       qValues s' !! i = Some None
       ∧ ∃ stage, filters s' !! i = Some stage
                  ∧ Q_value stage = Q_value createBiquadFilter).
Proof.
  intros Heq Hnil s' arr n.
  destruct (createFilterNodes_filters props bands s Heq) as (Hf & Hq & _).
  fold s' arr in Hf, Hq. rewrite Hnil in Hf. cbn in Hf.
  assert (Hlen : length bands = n)
    by (unfold n, arr; by rewrite length_Object_keys).
  split_and!.
  - by rewrite Hq, length_imap.
  - intros i fp f fn H0 Hn Hp Hi Hs q.
    assert (Hfl : first_or_last i (length arr) = false)
      by (apply first_or_last_false; fold n; lia).
    assert (Hqi : qValues s' !! i = Some (Some q)).
    { rewrite Hq, list_lookup_imap, Hi. cbn. unfold qValue.
      rewrite Hfl.
      by rewrite (list_lookup_total_correct _ _ _ Hp),
        (list_lookup_total_correct _ _ _ Hs). }
    split; [done|].
    destruct (lookup_lt_is_Some_2 bands i) as [e He]; [lia|].
    rewrite Hf, list_lookup_imap, He. cbn.
    eexists; split; [reflexivity|].
    unfold newFilter. rewrite Hfl. cbn.
    by rewrite <- Hq, Hqi.
  - intros i Hi Hfl.
    assert (Hfl' : first_or_last i (length arr) = true)
      by (apply first_or_last_true; by fold n).
    destruct (lookup_lt_is_Some_2 arr i) as [k Hk]; [done|].
    split.
    + rewrite Hq, list_lookup_imap, Hk. cbn. unfold qValue.
      by rewrite Hfl'.
    + destruct (lookup_lt_is_Some_2 bands i) as [e He]; [lia|].
      rewrite Hf, list_lookup_imap, He. cbn.
      eexists; split; [reflexivity|].
      unfold newFilter. rewrite Hfl'. by destruct (i =? 0)%nat.
Qed.

(** ** Reconciliation: what an update leaves alone *)

Lemma issued_app s s' new : log s' = log s ++ new → issued s s' = new.
Proof. unfold issued. intros ->. by rewrite drop_app_length. Qed.

Lemma componentDidUpdate_steps prevProps props s :
  componentDidUpdate prevProps props s
  = updateEqualizer prevProps props (updateTransport prevProps props s).
Proof. reflexivity. Qed.

Lemma updateTransport_frame prevProps props s :
  let s' := updateTransport prevProps props s in
  filters s' = filters s
  ∧ qValues s' = qValues s
  ∧ connections s' = connections s.
Proof.
  assert (Hviz : ∀ p s0,
    filters (handleVisualizationChange p s0) = filters s0
    ∧ qValues (handleVisualizationChange p s0) = qValues s0
    ∧ connections (handleVisualizationChange p s0) = connections s0).
  { intros p s0. unfold handleVisualizationChange.
    by destruct (onVisualizationChange p). }
  assert (Hplayer : ∀ p s0,
    filters (setPlayerState p s0) = filters s0
    ∧ qValues (setPlayerState p s0) = qValues s0
    ∧ connections (setPlayerState p s0) = connections s0).
  { intros p s0. unfold setPlayerState, stop, pause, play.
    repeat case_match; done. }
  unfold updateTransport, updateVisualization, updateStereoPan,
    updatePlayerState, updatePosition, updateVolume, setStereoPan,
    setPosition, setVolume.
  cbv zeta.
  repeat match goal with
         | |- context [handleVisualizationChange ?p ?s0] =>
             let H := fresh in
             destruct (Hviz p s0) as (? & ? & ?);
             generalize dependent (handleVisualizationChange p s0);
             intros
         | |- context [setPlayerState ?p ?s0] =>
             let H := fresh in
             destruct (Hplayer p s0) as (? & ? & ?);
             generalize dependent (setPlayerState p s0);
             intros
         end.
  repeat case_match; cbn in *; split_and!; congruence.
Qed.

(** Once the iteration has thrown, the remaining callbacks do not run. *)
Lemma forEach_patchGain_thrown preAmp vs i s :
  forEach (patchGain preAmp) vs i (TypeError, s) = (TypeError, s).
Proof. revert i. induction vs as [|v vs IH]; intros i; cbn; auto. Qed.

(** The gain patch keeps every stage, its kind, frequency and Q, and
    writes the gain of the stages that have an entry. *)
Lemma forEach_patchGain_filters preAmp vs i s :
  let r := forEach (patchGain preAmp) vs i (Normal, s) in
  length (filters r.2) = length (filters s)
  ∧ qValues r.2 = qValues s
  ∧ connections r.2 = connections s
  ∧ ∀ idx f, filters s !! idx = Some f →
      ∃ f', filters r.2 !! idx = Some f'
            ∧ type f' = type f
            ∧ frequency_value f' = frequency_value f
            ∧ Q_value f' = Q_value f
            ∧ (∀ v, (i ≤ idx)%nat → vs !! (idx - i)%nat = Some v →
                 gain_value f' = v + preAmp)
            ∧ ((idx < i)%nat ∨ vs !! (idx - i)%nat = None →
                 gain_value f' = gain_value f).
Proof.
  revert i s. induction vs as [|v vs IH]; intros i s; cbn.
  - split_and!; try done. intros idx f Hf. exists f. split_and!; try done.
  - destruct (filters s !! i) as [f0|] eqn:Hi.
    + set (s1 := emit _ _).
      destruct (IH (S i) s1) as (Hlen & Hq & Hc & Hst).
      assert (Hfs1 : filters s1
                     = <[i := set_gain (v + preAmp) f0]> (filters s))
        by done.
      split_and!.
      * by rewrite Hlen, Hfs1, length_insert.
      * by rewrite Hq.
      * by rewrite Hc.
      * intros idx f Hf.
        destruct (decide (idx = i)) as [->|Hne].
        -- assert (f = f0) as -> by congruence.
           destruct (Hst i (set_gain (v + preAmp) f0))
             as (f' & Hf' & Ht & Hfr & HQ & _ & Hg).
           { rewrite Hfs1. apply list_lookup_insert_eq.
             by eapply lookup_lt_Some. }
           exists f'. split_and!; try done.
           ++ intros v' _. rewrite Nat.sub_diag. cbn. intros [= <-].
              apply Hg. left. lia.
           ++ intros [Hlt|Hnone]; [lia|].
              by rewrite Nat.sub_diag in Hnone.
        -- destruct (Hst idx f) as (f' & Hf' & Ht & Hfr & HQ & Hs & Hg).
           { rewrite Hfs1. by rewrite list_lookup_insert_ne. }
           exists f'. split_and!; try done.
           ++ intros v' Hle Hv'. apply Hs; [lia|].
              replace (idx - i)%nat with (S (idx - S i)) in Hv' by lia.
              done.
           ++ intros [Hlt|Hnone]; apply Hg; [left; lia|].
              destruct (decide (idx < i)%nat); [left; lia|right].
              replace (idx - i)%nat with (S (idx - S i)) in Hnone by lia.
              done.
    + rewrite forEach_patchGain_thrown. cbn.
      split_and!; try done.
      intros idx f Hf. exists f. split_and!; try done.
      * intros v' Hle _. apply lookup_lt_Some in Hf.
        apply lookup_ge_None in Hi. lia.
Qed.

Lemma extends_refl P s s' : log s' = log s → extends P s s'.
Proof. intros H. exists []. by rewrite app_nil_r. Qed.

Lemma extends_emit P e s s' s'' :
  P e → log s'' = log s' ++ [e] → extends P s s' → extends P s s''.
Proof.
  intros He Hl (new & Hn & HP). exists (new ++ [e]).
  rewrite Hl, Hn, app_assoc. split; [done|].
  apply Forall_app. split; [done|]. by constructor.
Qed.

Lemma extends_trans P s s' s'' :
  extends P s s' → extends P s' s'' → extends P s s''.
Proof.
  intros (n1 & H1 & P1) (n2 & H2 & P2). exists (n1 ++ n2).
  rewrite H2, H1, app_assoc. split; [done|]. by apply Forall_app.
Qed.

Lemma extends_issued P s s' : extends P s s' → Forall P (issued s s').
Proof. intros (new & Hn & HP). by rewrite (issued_app _ _ _ Hn). Qed.

Lemma handleVisualizationChange_extends P props s :
  (∀ h, P (request_animation_frame h)) →
  P get_byte_frequency_data →
  (∀ d, P (visualization_change d)) →
  extends P s (handleVisualizationChange props s).
Proof.
  intros H1 H2 H3. unfold handleVisualizationChange.
  destruct (onVisualizationChange props).
  - eapply extends_emit; [apply H3 | reflexivity |].
    eapply extends_emit; [apply H2 | reflexivity |].
    eapply extends_emit; [apply H1 | reflexivity |].
    by apply extends_refl.
  - eapply extends_emit; [apply H2 | reflexivity |].
    eapply extends_emit; [apply H1 | reflexivity |].
    by apply extends_refl.
Qed.

Lemma setPlayerState_extends P props s :
  P audio_play → P audio_pause → (∀ t, P (audio_set_currentTime t)) →
  (∀ h, P (cancel_animation_frame h)) →
  extends P s (setPlayerState props s).
Proof.
  intros H1 H2 H3 H4.
  assert (Hpause : extends P s (pause props s)).
  { unfold pause. cbn. destruct (animationFrame s).
    - eapply extends_emit; [apply H4 | reflexivity |].
      eapply extends_emit; [apply H2 | reflexivity |].
      by apply extends_refl.
    - eapply extends_emit; [apply H2 | reflexivity |].
      by apply extends_refl. }
  assert (Hplay : extends P s (play props s)).
  { eapply extends_emit; [apply H1 | reflexivity |].
    by apply extends_refl. }
  unfold setPlayerState.
  destruct (playStatus props) as [status|]; [|done].
  destruct (String.eqb status _); [done|].
  destruct (String.eqb status _); [|done].
  eapply extends_emit; [apply H3 | reflexivity | done].
Qed.

Lemma updateVolume_extends P prevProps props s :
  (∀ v, P (gain_set v)) → extends P s (updateVolume prevProps props s).
Proof.
  intros H. unfold updateVolume, setVolume.
  destruct (strict_neq _ _); [|by apply extends_refl].
  eapply extends_emit; [apply H | reflexivity |]. by apply extends_refl.
Qed.

Lemma updatePosition_extends P prevProps props s :
  (∀ t, P (audio_set_currentTime t)) →
  extends P s (updatePosition prevProps props s).
Proof.
  intros H. unfold updatePosition, setPosition.
  destruct (shouldUpdatePosition _ _); [|by apply extends_refl].
  destruct (truthy _); [|by apply extends_refl].
  eapply extends_emit; [apply H | reflexivity |]. by apply extends_refl.
Qed.

Lemma updatePlayerState_extends P prevProps props s :
  P audio_play → P audio_pause → (∀ t, P (audio_set_currentTime t)) →
  (∀ h, P (cancel_animation_frame h)) →
  extends P s (updatePlayerState prevProps props s).
Proof.
  intros. unfold updatePlayerState.
  destruct (strict_neq_str _ _); [|by apply extends_refl].
  by apply setPlayerState_extends.
Qed.

Lemma updateStereoPan_extends P prevProps props s :
  (∀ v, P (pan_set v)) → extends P s (updateStereoPan prevProps props s).
Proof.
  intros H. unfold updateStereoPan, setStereoPan.
  destruct (strict_neq _ _); [|by apply extends_refl].
  eapply extends_emit; [apply H | reflexivity |]. by apply extends_refl.
Qed.

Lemma updateVisualization_extends P prevProps props s :
  (∀ h, P (request_animation_frame h)) →
  P get_byte_frequency_data →
  (∀ d, P (visualization_change d)) →
  (∀ h, P (cancel_animation_frame h)) →
  extends P s (updateVisualization prevProps props s).
Proof.
  intros H1 H2 H3 H4. unfold updateVisualization.
  set (s1 := if _ : bool then handleVisualizationChange props s else s).
  assert (Hs1 : extends P s s1).
  { unfold s1. destruct (_ && _ && _); [|by apply extends_refl].
    by apply handleVisualizationChange_extends. }
  clearbody s1.
  destruct (_ && _); [|exact Hs1].
  eapply extends_emit; [apply H4 | reflexivity | exact Hs1].
Qed.

(** The steps before the equalizer's read no filter. *)
Lemma updateTransport_no_access prevProps props s :
  extends (λ e, accessed_index e = None) s
    (updateTransport prevProps props s).
Proof.
  unfold updateTransport.
  eapply extends_trans; [|by apply updateVisualization_extends].
  eapply extends_trans; [|by apply updateStereoPan_extends].
  eapply extends_trans; [|by apply updatePlayerState_extends].
  eapply extends_trans; [|by apply updatePosition_extends].
  by apply updateVolume_extends.
Qed.

(** The log of the gain patch when every index is in range ... *)
Lemma forEach_patchGain_in_range preAmp vs i s :
  (i + length vs ≤ length (filters s))%nat →
  let r := forEach (patchGain preAmp) vs i (Normal, s) in
  r.1 = Normal
  ∧ log r.2
    = log s ++ imap (λ j v, filter_gain_set (i + j) (v + preAmp)) vs.
Proof.
  revert i s. induction vs as [|v vs IH]; intros i s Hlen; cbn in *.
  - by rewrite app_nil_r.
  - destruct (lookup_lt_is_Some_2 (filters s) i) as [f0 Hf0]; [lia|].
    rewrite Hf0. set (s1 := emit _ _).
    destruct (IH (S i) s1) as [Hn Hl].
    { unfold s1. cbn. rewrite length_insert. lia. }
    split; [done|]. rewrite Hl. unfold s1. cbn.
    rewrite <- app_assoc. cbn. rewrite Nat.add_0_r. do 2 f_equal.
    apply imap_ext. intros j x _. cbn. f_equal. lia.
Qed.

(** ... and when the entries outnumber the filters. *)
Lemma forEach_patchGain_overrun preAmp vs i s :
  (i ≤ length (filters s))%nat →
  (length (filters s) < i + length vs)%nat →
  let r := forEach (patchGain preAmp) vs i (Normal, s) in
  r.1 = TypeError
  ∧ log r.2
    = log s
      ++ imap (λ j v, filter_gain_set (i + j) (v + preAmp))
           (take (length (filters s) - i) vs)
      ++ [filter_undefined (length (filters s))].
Proof.
  revert i s. induction vs as [|v vs IH]; intros i s Hi Hlen; cbn in *.
  - lia.
  - destruct (filters s !! i) as [f0|] eqn:Hf0.
    + apply lookup_lt_Some in Hf0 as Hlt.
      set (s1 := emit _ _).
      assert (Hl1 : length (filters s1) = length (filters s))
        by (unfold s1; cbn; by rewrite length_insert).
      destruct (IH (S i) s1) as [Hn Hl]; [lia..|].
      split; [done|]. rewrite Hl, Hl1. unfold s1. cbn.
      replace (length (filters s) - i)%nat
        with (S (length (filters s) - S i)) by lia.
      cbn. rewrite <- app_assoc. cbn. rewrite Nat.add_0_r.
      do 3 f_equal.
      apply imap_ext. intros j x _. cbn. f_equal. lia.
    + apply lookup_ge_None in Hf0.
      assert (i = length (filters s)) as Hil by lia.
      rewrite forEach_patchGain_thrown. cbn.
      split; [done|]. rewrite <- Hil, Nat.sub_diag. by cbn.
Qed.

(** ** Reconciliation: the equalizer *)

(** The state after a detected equalizer or pre-amp change, stage by
    stage. *)
Lemma gain_patch_stages prevProps props s :
  shouldUpdateEqualizer prevProps props = true →
  let s' := (componentDidUpdate prevProps props s).2 in
  let newGains := Object_values (default [] (equalizer props)) in
  length (filters s') = length (filters s)
  ∧ qValues s' = qValues s
  ∧ ∀ idx f, filters s !! idx = Some f →
      ∃ f', filters s' !! idx = Some f'
            ∧ type f' = type f
            ∧ frequency_value f' = frequency_value f
            ∧ Q_value f' = Q_value f
            ∧ (∀ newGain, newGains !! idx = Some newGain →
                 gain_value f' = newGain + default 0 (preAmp props))
            ∧ (newGains !! idx = None → gain_value f' = gain_value f).
Proof.
  intros Hup s' newGains. subst s'.
  rewrite componentDidUpdate_steps. unfold updateEqualizer. rewrite Hup.
  destruct (updateTransport_frame prevProps props s) as (Hf & Hq & Hc).
  destruct (forEach_patchGain_filters (default 0 (preAmp props)) newGains
              0 (updateTransport prevProps props s))
    as (Hlen & Hq' & Hc' & Hst).
  fold newGains. split_and!.
  - by rewrite Hlen, Hf.
  - by rewrite Hq', Hq.
  - intros idx f Hidx. rewrite <- Hf in Hidx.
    destruct (Hst idx f Hidx) as (f' & Hf' & Ht & Hfr & HQ & Hs & Hg).
    exists f'. split_and!; try done.
    + intros v Hv. apply Hs; [lia|]. by rewrite Nat.sub_0_r.
    + intros Hv. apply Hg. right. by rewrite Nat.sub_0_r.
Qed.

(** C4.  When an update is detected as an equalizer or pre-amp change,
    the patch keeps the number of stages and every stage's kind,
    frequency and Q (and the derived Q values), and the gain of stage
    [idx] becomes exactly the new gain at [idx] plus the pre-amp; a stage
    without a new entry keeps its gain.  With as many new gains as
    stages, the gains of the chain are the new gains plus the pre-amp. *)
Theorem gain_patch_only_writes_gain prevProps props s :
  shouldUpdateEqualizer prevProps props = true →
  let s' := (componentDidUpdate prevProps props s).2 in
  let newGains := Object_values (default [] (equalizer props)) in
  length (filters s') = length (filters s)
  ∧ qValues s' = qValues s
  ∧ (∀ idx f, filters s !! idx = Some f →
       ∃ f', filters s' !! idx = Some f'
             ∧ type f' = type f
             ∧ frequency_value f' = frequency_value f
             ∧ Q_value f' = Q_value f
             ∧ (∀ newGain, newGains !! idx = Some newGain →
                  gain_value f' = newGain + default 0 (preAmp props))
             ∧ (newGains !! idx = None → gain_value f' = gain_value f))
  ∧ (length newGains = length (filters s) →
       gain_value <$> filters s'
       = (λ newGain, newGain + default 0 (preAmp props)) <$> newGains).
Proof.
  intros Hup s' newGains.
  destruct (gain_patch_stages prevProps props s Hup) as (Hlen & Hq & Hst).
  fold s' newGains in Hlen, Hst, Hq.
  split_and!; [done..|].
  intros Hsame. apply list_eq. intros idx. rewrite !list_lookup_fmap.
  destruct (filters s !! idx) as [f|] eqn:Hidx.
  - destruct (Hst idx f Hidx) as (f' & Hf' & _ & _ & _ & Hg & _).
    destruct (lookup_lt_is_Some_2 newGains idx) as [v Hv].
    { rewrite Hsame. by eapply lookup_lt_Some. }
    rewrite Hf', Hv. cbn. by rewrite (Hg v Hv).
  - apply lookup_ge_None in Hidx.
    rewrite (lookup_ge_None_2 (filters s') idx) by lia.
    by rewrite (lookup_ge_None_2 newGains idx) by lia.
Qed.

(** C3, as amended.  No update rebuilds the chain, whatever the keys of
    the new equalizer: the number of stages, every stage's kind,
    frequency and Q, the derived Q values and the connections are those
    of the construction.  When both equalizers are present and their
    serialised entries differ, the gains are patched in place, by
    index. *)
Theorem update_patches_in_place prevProps props s :
  let s' := (componentDidUpdate prevProps props s).2 in
  length (filters s') = length (filters s)
  ∧ qValues s' = qValues s
  ∧ connections s' = connections s
  ∧ (∀ idx f, filters s !! idx = Some f →
       ∃ f', filters s' !! idx = Some f'
             ∧ type f' = type f
             ∧ frequency_value f' = frequency_value f
             ∧ Q_value f' = Q_value f)
  ∧ (∀ bands prevEq,
       equalizer props = Some bands → equalizer prevProps = Some prevEq →
       entries_toString bands ≠ entries_toString prevEq →
       ∀ idx f newGain,
         filters s !! idx = Some f →
         Object_values bands !! idx = Some newGain →
         ∃ f', filters s' !! idx = Some f'
               ∧ gain_value f' = newGain + default 0 (preAmp props)).
Proof.
  intros s'. subst s'. rewrite componentDidUpdate_steps.
  destruct (updateTransport_frame prevProps props s) as (Hf & Hq & Hc).
  set (s1 := updateTransport prevProps props s) in *.
  assert (Hframe :
    length (filters (updateEqualizer prevProps props s1).2)
      = length (filters s)
    ∧ qValues (updateEqualizer prevProps props s1).2 = qValues s
    ∧ connections (updateEqualizer prevProps props s1).2 = connections s
    ∧ (∀ idx f, filters s !! idx = Some f →
         ∃ f', filters (updateEqualizer prevProps props s1).2 !! idx
               = Some f'
               ∧ type f' = type f
               ∧ frequency_value f' = frequency_value f
               ∧ Q_value f' = Q_value f)).
  { unfold updateEqualizer.
    destruct (shouldUpdateEqualizer prevProps props).
    - destruct (forEach_patchGain_filters (default 0 (preAmp props))
                  (Object_values (default [] (equalizer props))) 0 s1)
        as (Hlen & Hq' & Hc' & Hst).
      split_and!; [congruence..|].
      intros idx f Hidx. rewrite <- Hf in Hidx.
      destruct (Hst idx f Hidx) as (f' & ? & ? & ? & ? & _).
      by exists f'.
    - cbn. split_and!; [congruence..|].
      intros idx f Hidx. exists f. by rewrite Hf. }
  destruct Hframe as (H1 & H2 & H3 & H4). split_and!; try done.
  intros bands prevEq Heq Hprev Hne idx f v Hidx Hv.
  unfold updateEqualizer, shouldUpdateEqualizer.
  rewrite Heq, Hprev.
  destruct (String.eqb_spec (entries_toString bands) (entries_toString prevEq))
    as [|_]; [done|].
  cbn [negb orb default].
  destruct (forEach_patchGain_filters (default 0 (preAmp props))
              (Object_values bands) 0 s1) as (_ & _ & _ & Hst).
  rewrite <- Hf in Hidx.
  destruct (Hst idx f Hidx) as (f' & Hf' & _ & _ & _ & Hs & _).
  exists f'. split; [done|].
  apply Hs; [lia|]. by rewrite Nat.sub_0_r.
Qed.

Lemma length_Object_values (bands : list (string * Q)) :
  length (Object_values bands) = length bands.
Proof. unfold Object_values. by rewrite length_fmap. Qed.

(** The chain built when the component mounts has one stage per entry
    of the equalizer it mounts with. *)
Lemma componentDidMount_filters props bins frame :
  length (filters (componentDidMount props bins frame))
  = length (default [] (equalizer props)).
Proof.
  unfold componentDidMount.
  set (s0 := newGraph props bins frame).
  destruct (createFilterNodes props s0) as [tail s1] eqn:Hc.
  transitivity (length (filters s1)).
  { unfold setPlayerState, stop, pause, play. cbn.
    repeat case_match; done. }
  destruct (equalizer props) as [bands|] eqn:Heq.
  - destruct (createFilterNodes_filters props bands s0 Heq) as (Hf & _).
    rewrite Hc in Hf. cbn in Hf. rewrite Hf. cbn.
    by rewrite length_imap.
  - unfold createFilterNodes in Hc. rewrite Heq in Hc.
    by injection Hc as <- <-.
Qed.

(** C10.  The patch reads [this.filters[idx]] for the index of every
    entry of the new equalizer, unguarded.  With at most as many entries
    as filters, the update completes and every index read is in range.
    With more entries than filters, a detected change reads the index
    just past the end and the update ends in a [TypeError]; such an
    update exists for a chain built by [componentDidMount]. *)
Theorem gain_patch_index_bounds :
  (∀ prevProps props s,
     (length (default [] (equalizer props)) ≤ length (filters s))%nat →
     let r := componentDidUpdate prevProps props s in
     r.1 = Normal
     ∧ ∀ e idx, e ∈ issued s r.2 → accessed_index e = Some idx →
         (idx < length (filters s))%nat)
  ∧ (∀ prevProps props s,
       shouldUpdateEqualizer prevProps props = true →
       (length (filters s) < length (default [] (equalizer props)))%nat →
       let r := componentDidUpdate prevProps props s in
       r.1 = TypeError
       ∧ filter_undefined (length (filters s)) ∈ issued s r.2)
  ∧ (∃ mountProps props, ∀ bins frame,
       let s := componentDidMount mountProps bins frame in
       let r := componentDidUpdate mountProps props s in
       (length (filters s) < length (default [] (equalizer props)))%nat
       ∧ r.1 = TypeError
       ∧ filter_undefined (length (filters s)) ∈ issued s r.2).
Proof.
  assert (Hover : ∀ prevProps props s,
    shouldUpdateEqualizer prevProps props = true →
    (length (filters s) < length (default [] (equalizer props)))%nat →
    let r := componentDidUpdate prevProps props s in
    r.1 = TypeError
    ∧ filter_undefined (length (filters s)) ∈ issued s r.2).
  { intros prevProps props s Hup Hlen r. subst r.
    rewrite componentDidUpdate_steps. unfold updateEqualizer.
    rewrite Hup.
    destruct (updateTransport_frame prevProps props s) as (Hf & _).
    destruct (updateTransport_no_access prevProps props s)
      as (new & Hnew & _).
    set (s1 := updateTransport prevProps props s) in *.
    destruct (forEach_patchGain_overrun (default 0 (preAmp props))
                (Object_values (default [] (equalizer props))) 0 s1)
      as [Hc Hl]; [lia| rewrite length_Object_values, Hf; lia |].
    split; [done|].
    rewrite Hnew, <- app_assoc in Hl.
    rewrite (issued_app _ _ _ Hl), Hf.
    rewrite !elem_of_app. right. right. by apply list_elem_of_singleton. }
  split_and!; [|exact Hover|].
  - intros prevProps props s Hlen r. subst r.
    rewrite componentDidUpdate_steps.
    destruct (updateTransport_frame prevProps props s) as (Hf & _).
    destruct (updateTransport_no_access prevProps props s)
      as (new & Hnew & Hnone).
    set (s1 := updateTransport prevProps props s) in *.
    unfold updateEqualizer.
    destruct (shouldUpdateEqualizer prevProps props).
    + destruct (forEach_patchGain_in_range (default 0 (preAmp props))
                  (Object_values (default [] (equalizer props))) 0 s1)
        as [Hc Hl]; [rewrite length_Object_values, Hf; lia|].
      split; [done|].
      rewrite Hnew, <- app_assoc in Hl.
      rewrite (issued_app _ _ _ Hl).
      intros e idx [He|He]%elem_of_app Hacc.
      * rewrite Forall_forall in Hnone. rewrite (Hnone e He) in Hacc.
        done.
      * apply elem_of_lookup_imap in He as (j & v & -> & Hj).
        cbn in Hacc. injection Hacc as <-.
        apply lookup_lt_Some in Hj.
        rewrite length_Object_values in Hj. lia.
    + cbn. split; [done|].
      rewrite (issued_app _ _ _ Hnew).
      intros e idx He Hacc.
      rewrite Forall_forall in Hnone. rewrite (Hnone e He) in Hacc. done.
  - exists (equalizerProps (Some [("60", 0)]) None),
           (equalizerProps (Some [("60", 0); ("310", 0)]) (Some 1)).
    intros bins frame s r.
    assert (Hlen : length (filters s) = 1%nat)
      by (unfold s; by rewrite componentDidMount_filters).
    assert (Hlt : (length (filters s) < 2)%nat) by lia.
    split; [exact Hlt|].
    apply Hover; [|exact Hlt].
    unfold shouldUpdateEqualizer. cbn. apply orb_true_r.
Qed.

(** ** Reconciliation: transport *)

Lemma Qltb_lt a b : Qltb a b = true ↔ a < b.
Proof.
  unfold Qltb. rewrite negb_true_iff. split.
  - intros H. destruct (Qlt_le_dec a b) as [|Hle]; [done|].
    apply Qle_bool_iff in Hle. congruence.
  - intros H. destruct (Qle_bool b a) eqn:E; [|done].
    apply Qle_bool_iff in E. lra.
Qed.

Lemma Qltb_ge a b : Qltb a b = false ↔ b <= a.
Proof.
  unfold Qltb. rewrite negb_false_iff. apply Qle_bool_iff.
Qed.

Lemma truthy_Some p : truthy (Some p) = true ↔ ¬ p == 0.
Proof.
  cbn. rewrite negb_true_iff. split.
  - intros H. by apply Qeq_bool_neq.
  - intros H. destruct (Qeq_bool p 0) eqn:E; [|done].
    by apply Qeq_bool_eq in E.
Qed.

Lemma shouldUpdatePosition_true prevProps props p :
  position props = Some p → ¬ p == 0 →
  shouldUpdatePosition prevProps props = true
  ↔ p < default 0 (position prevProps)
    ∨ 1 < p - default 0 (position prevProps).
Proof.
  intros Hp Hnz. unfold shouldUpdatePosition. rewrite Hp.
  apply truthy_Some in Hnz. rewrite Hnz. cbn [default].
  by rewrite orb_true_iff, !Qltb_lt.
Qed.

(** C5, as amended.  When the new position is present and not zero, the
    position step of an update issues exactly one seek, to the new
    position, if and only if the new position is below the previous one
    (absent read as [0]) or exceeds it by more than one second, and
    either case means the position changed; it issues nothing
    otherwise.  Whatever the new position, a forward drift of at most
    one second issues no seek. *)
Theorem seek_decision :
  (∀ prevProps props s p,
     position props = Some p → ¬ p == 0 →
     let prev := default 0 (position prevProps) in
     let new := issued s (updatePosition prevProps props s) in
     (new = [audio_set_currentTime p] ∨ new = [])
     ∧ (new = [audio_set_currentTime p] ↔ p < prev ∨ 1 < p - prev)
     ∧ (p < prev ∨ 1 < p - prev → ¬ p == prev))
  ∧ (∀ prevProps props s,
       let prev := default 0 (position prevProps) in
       (∀ p, position props = Some p → prev <= p ∧ p - prev <= 1) →
       issued s (updatePosition prevProps props s) = []).
Proof.
  split.
  - intros prevProps props s p Hp Hnz prev new.
    pose proof (shouldUpdatePosition_true prevProps props p Hp Hnz) as Hiff.
    fold prev in Hiff. subst new. unfold updatePosition, setPosition.
    destruct (shouldUpdatePosition prevProps props).
    + apply truthy_Some in Hnz as Ht. rewrite Hp, Ht. cbn [default].
      rewrite (issued_app s _ [audio_set_currentTime p]) by done.
      split_and!; [by left | | lra].
      split; [intros _; by apply Hiff | done].
    + rewrite (issued_app s s []) by (by rewrite app_nil_r).
      split_and!; [by right | | lra].
      split; [done|]. intros H. apply Hiff in H. done.
  - intros prevProps props s prev Hdrift.
    unfold updatePosition, setPosition.
    assert (Hno : shouldUpdatePosition prevProps props = false).
    { unfold shouldUpdatePosition.
      destruct (position props) as [p|] eqn:Hp; [|done].
      destruct (truthy (Some p)); [|done]. cbn [default].
      destruct (Hdrift p eq_refl) as [H1 H2]. fold prev.
      apply orb_false_iff. by rewrite !Qltb_ge. }
    rewrite Hno. apply issued_app. by rewrite app_nil_r.
Qed.

(** C6.  Whatever the state of the instance, [setPlayerState] issues as
    transport commands: for ["PAUSED"] a pause; for ["STOPPED"] a pause,
    then the position set to zero; for any other status, or none, a
    play. *)
Theorem setPlayerState_commands props s :
  let cmds := List.filter is_transport (issued s (setPlayerState props s)) in
  (playStatus props = Some "PAUSED" → cmds = [audio_pause])
  ∧ (playStatus props = Some "STOPPED" →
       cmds = [audio_pause; audio_set_currentTime 0])
  ∧ (playStatus props ≠ Some "PAUSED" →
     playStatus props ≠ Some "STOPPED" →
       cmds = [audio_play]).
Proof.
  assert (Hpause : ∃ new, log (pause props s) = log s ++ new
                          ∧ List.filter is_transport new = [audio_pause]).
  { unfold pause. cbn. destruct (animationFrame s) as [h|]; cbn.
    - exists [audio_pause; cancel_animation_frame (Some h)].
      by rewrite <- app_assoc.
    - by exists [audio_pause]. }
  destruct Hpause as (np & Hnp & Hfp).
  cbv zeta. unfold setPlayerState. split_and!.
  - intros ->. cbn. by rewrite (issued_app _ _ _ Hnp).
  - intros ->. cbn. unfold stop.
    rewrite (issued_app s _ (np ++ [audio_set_currentTime 0])).
    + by rewrite List.filter_app, Hfp.
    + cbn. by rewrite Hnp, app_assoc.
  - intros H1 H2.
    assert (Hplay : issued s (play props s) = [audio_play])
      by (by apply issued_app).
    destruct (playStatus props) as [status|]; [|by rewrite Hplay].
    destruct (String.eqb_spec status SoundStatus.PAUSED) as [->|_];
      [done|].
    destruct (String.eqb_spec status SoundStatus.STOPPED) as [->|_];
      [done|].
    by rewrite Hplay.
Qed.

(** ** Reconciliation: the same props twice *)

Lemma strict_neq_refl x : strict_neq x x = false.
Proof. destruct x as [q|]; cbn; [|done]. by rewrite Qeq_bool_refl. Qed.

Lemma strict_neq_str_refl x : strict_neq_str x x = false.
Proof. destruct x as [q|]; cbn; [|done]. by rewrite String.eqb_refl. Qed.

Lemma shouldUpdatePosition_same props :
  shouldUpdatePosition props props = false.
Proof.
  unfold shouldUpdatePosition.
  destruct (truthy (position props)); [|done].
  apply orb_false_iff. rewrite !Qltb_ge. lra.
Qed.

Lemma shouldUpdateEqualizer_same props :
  shouldUpdateEqualizer props props = false.
Proof.
  unfold shouldUpdateEqualizer. rewrite strict_neq_refl.
  destruct (equalizer props); [|done].
  by rewrite String.eqb_refl.
Qed.

(** An update with unchanged props does nothing when [stereoPan] is
    given; when it is left out, the default [0] differs from the
    [undefined] of the previous props and the pan is written again. *)
Lemma componentDidUpdate_same_props props s :
  componentDidUpdate props props s
  = (Normal,
     match stereoPan props with
     | Some _ => s
     | None => setStereoPan props s
     end).
Proof.
  unfold componentDidUpdate, updateEqualizer, updateVisualization,
    updateStereoPan, updatePlayerState, updatePosition, updateVolume.
  rewrite strict_neq_refl, shouldUpdatePosition_same,
    strict_neq_str_refl, shouldUpdateEqualizer_same.
  cbv zeta.
  replace (negb (onVisualizationChange props)
           && onVisualizationChange props
           && bool_decide (is_Some (equalizer props))) with false
    by (by destruct (onVisualizationChange props)).
  replace (onVisualizationChange props
           && negb (onVisualizationChange props)) with false
    by (by destruct (onVisualizationChange props)).
  destruct (stereoPan props) as [v|]; cbn [default strict_neq].
  - by rewrite Qeq_bool_refl.
  - done.
Qed.

(** ** The checkpoint scan of the spectrum *)

Lemma HERTZ_ITER_pos : 0 < HERTZ_ITER.
Proof. reflexivity. Qed.

Lemma checkpoint_S k : checkpoint (S k) == checkpoint k + HERTZ_ITER.
Proof.
  unfold checkpoint. rewrite Nat2Z.inj_succ. unfold Z.succ.
  rewrite inject_Z_plus. ring.
Qed.

Lemma checkpoint_nonneg k : 0 <= checkpoint k.
Proof.
  unfold checkpoint. apply Qmult_le_0_compat.
  - replace 0 with (inject_Z 0) by done. rewrite <- Zle_Qle. lia.
  - apply Qlt_le_weak, HERTZ_ITER_pos.
Qed.

Lemma checkpoint_lt k k' : (k < k')%nat ↔ checkpoint k < checkpoint k'.
Proof.
  unfold checkpoint. split.
  - intros H. apply Qmult_lt_compat_r; [apply HERTZ_ITER_pos|].
    rewrite <- Zlt_Qlt. lia.
  - intros H. apply Qmult_lt_r in H; [|apply HERTZ_ITER_pos].
    rewrite <- Zlt_Qlt in H. lia.
Qed.

Lemma checkpoint_le k k' : (k ≤ k')%nat ↔ checkpoint k <= checkpoint k'.
Proof.
  unfold checkpoint. split.
  - intros H. apply Qmult_le_compat_r;
      [|apply Qlt_le_weak, HERTZ_ITER_pos].
    rewrite <- Zle_Qle. lia.
  - intros H. apply Qmult_le_r in H; [|apply HERTZ_ITER_pos].
    rewrite <- Zle_Qle in H. lia.
Qed.

(** Rounding the quotient of the [k]-th checkpoint by the step gives
    [k]. *)
Lemma Math_round_checkpoint i k :
  i == checkpoint k → Math_round (i / HERTZ_ITER) = Z.of_nat k.
Proof.
  intros Hi. unfold Math_round.
  assert (Hq : i / HERTZ_ITER + (1 # 2)
               == inject_Z (Z.of_nat k) + (1 # 2)).
  { rewrite Hi. unfold checkpoint. field. done. }
  rewrite (Qfloor_comp _ _ Hq).
  pose proof (Qfloor_le (inject_Z (Z.of_nat k) + (1 # 2))) as Hlo.
  pose proof (Qlt_floor (inject_Z (Z.of_nat k) + (1 # 2))) as Hhi.
  set (m := Qfloor _) in *.
  assert (inject_Z m < inject_Z (Z.of_nat k + 1)) as H1
    by (rewrite inject_Z_plus; change (inject_Z 1) with 1; lra).
  assert (inject_Z (Z.of_nat k) < inject_Z (m + 1)) as H2 by lra.
  rewrite <- Zlt_Qlt in H1, H2. lia.
Qed.

Section Scan.

Variable frequencies : list Q.
Variable data : list Z.

Lemma viz_state_S k :
  viz_state frequencies data (S k)
  = viz_body frequencies data (viz_state frequencies data k).
Proof. reflexivity. Qed.

Lemma in_window_bool c i :
  gt_opt i (frequencies !! c)
  && lt_opt i ((λ f, f + HERTZ_ITER) <$> frequencies !! c) = true
  ↔ in_window frequencies c i.
Proof.
  unfold in_window. destruct (frequencies !! c) as [f|]; cbn.
  - rewrite andb_true_iff, !Qltb_lt. split.
    + intros [H1 H2]. by exists f.
    + by intros (f' & [= <-] & H1 & H2).
  - split; [done|]. by intros (f & ? & _).
Qed.

Lemma viz_body_i st :
  viz_i (viz_body frequencies data st) = viz_i st + HERTZ_ITER.
Proof. unfold viz_body. by destruct (_ && _). Qed.

Lemma viz_body_hit st :
  in_window frequencies (currentIndex st) (viz_i st) →
  viz_body frequencies data st
  = {| viz_i := viz_i st + HERTZ_ITER;
       currentIndex := S (currentIndex st);
       values := values st
                 ++ [data_at data
                       (Math_round (viz_i st / HERTZ_ITER))] |}.
Proof.
  intros H%in_window_bool. unfold viz_body. by rewrite H.
Qed.

Lemma viz_body_miss st :
  ¬ in_window frequencies (currentIndex st) (viz_i st) →
  viz_body frequencies data st
  = {| viz_i := viz_i st + HERTZ_ITER;
       currentIndex := currentIndex st;
       values := values st |}.
Proof.
  intros H. unfold viz_body.
  destruct (_ && _) eqn:E; [|done]. by apply in_window_bool in E.
Qed.

(** The loop variable [i] visits the checkpoints. *)
Lemma viz_state_i k :
  viz_i (viz_state frequencies data k) == checkpoint k.
Proof.
  induction k as [|k IH].
  - unfold checkpoint. cbn. ring.
  - rewrite viz_state_S, viz_body_i, IH, checkpoint_S. ring.
Qed.

Lemma viz_cond_scanned k :
  viz_cond frequencies (viz_state frequencies data k) = true
  ↔ ∃ f, last frequencies = Some f ∧ checkpoint k <= f + HERTZ_ITER.
Proof.
  unfold viz_cond, le_opt.
  destruct (last frequencies) as [f|]; cbn.
  - rewrite Qle_bool_iff, viz_state_i. split.
    + intros H. by exists f.
    + by intros (f' & [= <-] & H).
  - split; [done|]. by intros (f & ? & _).
Qed.

Lemma scanned_iterations k :
  (∃ f, last frequencies = Some f ∧ checkpoint k <= f + HERTZ_ITER)
  ↔ (k < viz_iterations frequencies)%nat.
Proof.
  unfold viz_iterations.
  destruct (last frequencies) as [f|]; cycle 1.
  { split; [by intros (f & ? & _) | lia]. }
  set (B := f + HERTZ_ITER).
  pose proof HERTZ_ITER_pos as HH.
  pose proof (checkpoint_nonneg k) as Hk.
  destruct (Qle_bool 0 B) eqn:E.
  - apply Qle_bool_iff in E.
    pose proof (Qfloor_le (B / HERTZ_ITER)) as Hlo.
    assert (HB : B / HERTZ_ITER * HERTZ_ITER == B) by (field; lra).
    split.
    + intros (f' & [= <-] & Hle).
      assert (inject_Z (Z.of_nat k) <= B / HERTZ_ITER) as Hdiv
        by (by apply Qle_shift_div_l).
      apply Qfloor_resp_le in Hdiv. rewrite Qfloor_Z in Hdiv. lia.
    + intros Hlt. exists f. split; [done|].
      destruct (decide (k = 0%nat)) as [->|Hk0].
      { unfold checkpoint. change (inject_Z (Z.of_nat 0)) with 0.
        subst B. lra. }
      assert (Z.of_nat k ≤ Qfloor (B / HERTZ_ITER))%Z as Hz by lia.
      rewrite Zle_Qle in Hz.
      assert (checkpoint k <= B / HERTZ_ITER * HERTZ_ITER) as Hle.
      { unfold checkpoint. apply Qmult_le_compat_r; lra. }
      rewrite HB in Hle. exact Hle.
  - assert (B < 0).
    { destruct (Qlt_le_dec B 0) as [|Hle]; [done|].
      apply Qle_bool_iff in Hle. congruence. }
    split; [|lia]. intros (f' & [= <-] & Hle). fold B in Hle. lra.
Qed.

Lemma viz_cond_iterations k :
  viz_cond frequencies (viz_state frequencies data k) = true
  ↔ (k < viz_iterations frequencies)%nat.
Proof. by rewrite viz_cond_scanned, scanned_iterations. Qed.

(** Run from the state after [j] iterations, the loop stops after
    [viz_iterations] iterations or when the fuel is spent. *)
Lemma viz_loop_state fuel j :
  viz_loop fuel frequencies data (viz_state frequencies data j)
  = viz_state frequencies data
      (j + Nat.min fuel (viz_iterations frequencies - j)).
Proof.
  revert j. induction fuel as [|fuel IH]; intros j; cbn [viz_loop].
  - by rewrite Nat.add_0_r.
  - destruct (viz_cond _ _) eqn:E.
    + apply viz_cond_iterations in E.
      rewrite <- viz_state_S, IH. f_equal. lia.
    + assert (¬ (j < viz_iterations frequencies)%nat) as Hge
        by (rewrite <- viz_cond_iterations; congruence).
      f_equal. lia.
Qed.

Lemma viz_iterations_fuel :
  (viz_iterations frequencies < viz_fuel frequencies)%nat.
Proof.
  unfold viz_iterations, viz_fuel.
  destruct (last frequencies); [|lia].
  destruct (Qle_bool _ _); lia.
Qed.

(** The fuel of [formatDataVizByFrequency] is enough: its loop runs
    to the end. *)
Lemma viz_loop_final :
  viz_loop (viz_fuel frequencies) frequencies data viz_init
  = viz_state frequencies data (viz_iterations frequencies).
Proof.
  pose proof viz_iterations_fuel.
  change viz_init with (viz_state frequencies data 0).
  rewrite viz_loop_state. f_equal. lia.
Qed.

Lemma viz_loop_exits :
  viz_cond frequencies
    (viz_loop (viz_fuel frequencies) frequencies data viz_init)
  = false.
Proof.
  rewrite viz_loop_final.
  destruct (viz_cond _ _) eqn:E; [|done].
  apply viz_cond_iterations in E. lia.
Qed.

Lemma in_window_proper c i i' :
  i == i' → in_window frequencies c i → in_window frequencies c i'.
Proof.
  intros Hi (f & Hf & H1 & H2). exists f. rewrite <- Hi. done.
Qed.

(** What the loop holds after [k] iterations: the cursor counts the
    values pushed; the [j]-th value is the sample at the bin of the
    checkpoint that lay in the window of band [j]. *)
Lemma viz_hits_spec k :
  currentIndex (viz_state frequencies data k)
  = length (viz_hits frequencies data k)
  ∧ values (viz_state frequencies data k)
    = (λ c, data_at data (Z.of_nat c)) <$> viz_hits frequencies data k
  ∧ ∀ j c, viz_hits frequencies data k !! j = Some c →
      (c < k)%nat ∧ in_window frequencies j (checkpoint c).
Proof.
  induction k as [|k (Hc & Hv & Hh)]; [done|].
  cbn [viz_hits]. rewrite viz_state_S.
  destruct (_ && _) eqn:E.
  - apply in_window_bool in E. rewrite (viz_body_hit _ E).
    cbn [currentIndex values viz_i]. split_and!.
    + rewrite length_app, Hc. cbn. lia.
    + by rewrite fmap_app, Hv,
        (Math_round_checkpoint _ k (viz_state_i k)).
    + intros j c [Hj|[Hlen Hj]]%lookup_app_Some.
      * destruct (Hh j c Hj). split; [lia|done].
      * apply list_lookup_singleton_Some in Hj as [Hj0 <-].
        split; [lia|].
        assert (j = currentIndex (viz_state frequencies data k))
          as -> by lia.
        by apply (in_window_proper _ _ _ (viz_state_i k)).
  - assert (¬ in_window frequencies
                (currentIndex (viz_state frequencies data k))
                (viz_i (viz_state frequencies data k))) as Hmiss
      by (rewrite <- in_window_bool; congruence).
    rewrite (viz_body_miss _ Hmiss). cbn. split_and!; [done..|].
    intros j c Hj. destruct (Hh j c Hj). split; [lia|done].
Qed.

(** The checkpoints of the values pushed increase. *)
Lemma viz_hits_increasing k j j' c c' :
  (j < j')%nat →
  viz_hits frequencies data k !! j = Some c →
  viz_hits frequencies data k !! j' = Some c' →
  (c < c')%nat.
Proof.
  revert j j' c c'. induction k as [|k IH]; intros j j' c c' Hlt; [done|].
  cbn [viz_hits]. destruct (_ && _); [|by apply IH].
  intros [Hj|[Hlen Hj]]%lookup_app_Some
         [Hj'|[Hlen' Hj']]%lookup_app_Some.
  - by eapply IH.
  - apply list_lookup_singleton_Some in Hj' as [_ <-].
    by destruct (proj2 (proj2 (viz_hits_spec k)) j c Hj).
  - apply lookup_lt_Some in Hj'. lia.
  - apply list_lookup_singleton_Some in Hj as [? _].
    apply list_lookup_singleton_Some in Hj' as [? _]. lia.
Qed.

(** No more values than bands. *)
Lemma viz_hits_length k :
  (length (viz_hits frequencies data k) ≤ length frequencies)%nat.
Proof.
  destruct (viz_hits_spec k) as (_ & _ & Hh).
  destruct (decide (length (viz_hits frequencies data k) = 0%nat))
    as [->|Hne]; [lia|].
  destruct (lookup_lt_is_Some_2 (viz_hits frequencies data k)
              (length (viz_hits frequencies data k) - 1)) as [c Hc];
    [lia|].
  destruct (Hh _ _ Hc) as (_ & f & Hf & _).
  apply lookup_lt_Some in Hf. lia.
Qed.

End Scan.

Lemma formatDataVizByFrequency_final props bands data :
  equalizer props = Some bands →
  formatDataVizByFrequency props data
  = values (viz_state (Number <$> Object_keys bands) data
              (viz_iterations (Number <$> Object_keys bands))).
Proof.
  intros Hb. unfold formatDataVizByFrequency. rewrite Hb.
  cbv zeta. by rewrite viz_loop_final.
Qed.

(** C7.  The loop of [formatDataVizByFrequency] visits the checkpoints
    [0, HERTZ_ITER, 2 * HERTZ_ITER, ...] that are not above the last
    frequency plus [HERTZ_ITER], and returns what it holds after them.
    At a checkpoint [i] it pushes the sample at bin
    [Math.round(i / HERTZ_ITER)] and advances the cursor exactly when [i]
    lies strictly between the frequency of the band under the cursor and
    that frequency plus [HERTZ_ITER].  Hence the result has at most one
    value per band: its [j]-th value is the sample at the bin of a
    visited checkpoint inside the window of band [j], these checkpoints
    increase, and for ascending frequencies the values come in
    ascending order of frequency. *)
Theorem checkpoint_scan props bands data :
  equalizer props = Some bands →
  let frequencies := Number <$> Object_keys bands in
  let n := length frequencies in
  let N := viz_iterations frequencies in
  let st := viz_state frequencies data in
  let hits := viz_hits frequencies data N in
  let out := formatDataVizByFrequency props data in
  (∀ k, viz_i (st k) == checkpoint k)
  ∧ (∀ k, (k < N)%nat
          ↔ ∃ f, last frequencies = Some f
                 ∧ checkpoint k <= f + HERTZ_ITER)
  ∧ out = values (st N)
  ∧ (∀ k, let i := viz_i (st k) in
          let c := currentIndex (st k) in
          (in_window frequencies c i →
             currentIndex (st (S k)) = S c
             ∧ values (st (S k))
               = values (st k)
                 ++ [data_at data (Math_round (i / HERTZ_ITER))])
          ∧ (¬ in_window frequencies c i →
             currentIndex (st (S k)) = c
             ∧ values (st (S k)) = values (st k)))
  ∧ (length out ≤ n)%nat
  ∧ out = (λ c, data_at data (Z.of_nat c)) <$> hits
  ∧ (∀ j c, hits !! j = Some c →
       (c < N)%nat ∧ in_window frequencies j (checkpoint c))
  ∧ (∀ j j' c c', (j < j')%nat →
       hits !! j = Some c → hits !! j' = Some c' → (c < c')%nat)
  ∧ ((∀ a b fa fb, (a < b)%nat → frequencies !! a = Some fa →
        frequencies !! b = Some fb → fa < fb) →
     ∀ j j' f f', (j < j')%nat → (j' < length out)%nat →
       frequencies !! j = Some f → frequencies !! j' = Some f' →
       f < f').
Proof.
  intros Hb frequencies n N st hits out.
  destruct (viz_hits_spec frequencies data N) as (Hc & Hv & Hh).
  assert (Hout : out = values (st N))
    by (by apply formatDataVizByFrequency_final).
  split_and!.
  - apply viz_state_i.
  - intros k. symmetry. apply scanned_iterations.
  - done.
  - intros k i c. unfold st. rewrite viz_state_S. split.
    + intros Hw. by rewrite (viz_body_hit _ _ _ Hw).
    + intros Hw. by rewrite (viz_body_miss _ _ _ Hw).
  - rewrite Hout. unfold st. rewrite Hv, length_fmap.
    apply viz_hits_length.
  - by rewrite Hout.
  - done.
  - intros j j' c c'. apply viz_hits_increasing.
  - intros Hasc j j' f f' Hlt _ Hf Hf'. by eapply Hasc.
Qed.

(** C9, as amended.  The cursor ends on the number of values pushed.
    If no visited checkpoint lies in the window of band [b], the cursor
    never passes [b]: the result has no value for band [b] nor for any
    band after it.  That is the case when the frequency of band [b] is
    itself a checkpoint.  And when bands [b] and [b + 1] both lie between
    two consecutive checkpoints, the cursor never passes [b + 1], though
    the window of band [b + 1] is not empty: its only checkpoint is
    spent on band [b]. *)
Theorem cursor_stalls props bands data :
  equalizer props = Some bands →
  let frequencies := Number <$> Object_keys bands in
  let N := viz_iterations frequencies in
  let out := formatDataVizByFrequency props data in
  currentIndex (viz_state frequencies data N) = length out
  ∧ (∀ b,
       (∀ k, (∃ f, last frequencies = Some f
                   ∧ checkpoint k <= f + HERTZ_ITER) →
             ¬ in_window frequencies b (checkpoint k)) →
       (length out ≤ b)%nat)
  ∧ (∀ b fb m,
       frequencies !! b = Some fb → fb == checkpoint m →
       (length out ≤ b)%nat)
  ∧ (∀ b fb fb' k,
       frequencies !! b = Some fb → frequencies !! (S b) = Some fb' →
       checkpoint k <= fb → fb' <= checkpoint (S k) →
       (length out ≤ S b)%nat).
Proof.
  intros Hb frequencies N out.
  destruct (viz_hits_spec frequencies data N) as (Hc & Hv & Hh).
  assert (Hout : out = values (viz_state frequencies data N))
    by (by apply formatDataVizByFrequency_final).
  assert (Hlen : length out = length (viz_hits frequencies data N))
    by (by rewrite Hout, Hv, length_fmap).
  assert (Hempty : ∀ b,
    (∀ k, (∃ f, last frequencies = Some f
                ∧ checkpoint k <= f + HERTZ_ITER) →
          ¬ in_window frequencies b (checkpoint k)) →
    (length out ≤ b)%nat).
  { intros b Hno.
    destruct (decide (length out ≤ b)%nat) as [|Hgt]; [done|].
    destruct (lookup_lt_is_Some_2 (viz_hits frequencies data N) b)
      as [c Hcb]; [lia|].
    destruct (Hh b c Hcb) as [HcN Hw].
    apply scanned_iterations in HcN. by destruct (Hno c HcN). }
  split_and!.
  - by rewrite Hlen.
  - exact Hempty.
  - intros b fb m Hfb Hm. apply Hempty.
    intros k _ (f & Hf & H1 & H2).
    assert (f = fb) as -> by congruence.
    rewrite Hm in H1, H2. rewrite <- checkpoint_S in H2.
    apply checkpoint_lt in H1, H2. lia.
  - intros b fb fb' k Hfb Hfb' Hlo Hhi.
    destruct (decide (length out ≤ S b)%nat) as [|Hgt]; [done|].
    destruct (lookup_lt_is_Some_2 (viz_hits frequencies data N) b)
      as [c Hcb]; [lia|].
    destruct (lookup_lt_is_Some_2 (viz_hits frequencies data N) (S b))
      as [c' Hcb']; [lia|].
    assert (c < c')%nat as Hcc
      by (eapply (viz_hits_increasing _ _ N b (S b)); [lia|done..]).
    destruct (Hh b c Hcb) as (_ & f & Hf & H1 & _).
    destruct (Hh (S b) c' Hcb') as (_ & f' & Hf' & _ & H2).
    assert (f = fb) as -> by congruence.
    assert (f' = fb') as -> by congruence.
    assert (checkpoint k < checkpoint c) as Hkc by lra.
    apply checkpoint_lt in Hkc.
    assert (checkpoint c' < checkpoint (S (S k))) as Hck
      by (rewrite (checkpoint_S (S k)); lra).
    apply checkpoint_lt in Hck. lia.
Qed.

(** ** The wiring of the graph *)

Lemma forEach_createFilterNode_chain preAmp arr l i last s :
  let r := forEach (createFilterNode preAmp arr) l i (last, s) in
  connections r.2
  = connections s ++ chain last (length (filters s)) (length l)
  ∧ r.1 = chain_tail last (length (filters s)) (length l).
Proof.
  revert i last s. induction l as [|e l IH]; intros i last s; cbn.
  - by rewrite app_nil_r.
  - set (s1 := with_filters _ _).
    destruct (IH (S i) (BiquadNode (length (filters s))) s1) as [Hc Ht].
    assert (Hl1 : length (filters s1) = S (length (filters s)))
      by (unfold s1; cbn; rewrite length_app; cbn; lia).
    rewrite Hl1 in Hc, Ht. split.
    + rewrite Hc. unfold s1. cbn. by rewrite <- app_assoc.
    + rewrite Ht. destruct l as [|e' l]; cbn; [by rewrite Nat.add_0_r|].
      f_equal. lia.
Qed.

Lemma chain_lookup last base n j :
  (j < n)%nat →
  chain last base n !! j
  = Some (match j with O => last | S j' => BiquadNode (base + j') end,
          BiquadNode (base + j)).
Proof.
  revert last base j. induction n as [|n IH]; intros last base j Hj; [lia|].
  destruct j as [|j]; cbn.
  - by rewrite Nat.add_0_r.
  - rewrite IH by lia. destruct j as [|j]; cbn.
    + do 3 f_equal; lia.
    + do 3 f_equal; lia.
Qed.

Lemma length_chain last base n : length (chain last base n) = n.
Proof.
  revert last base. induction n as [|n IH]; intros; cbn; [done|].
  by rewrite IH.
Qed.

(** X1.  [createFilterNodes] wires the filters it pushes into one chain,
    in the order of the entries: the first is fed by the gain node, each
    other one by the filter before it, and no other connection is made.
    It returns the last filter, or the gain node when there is no
    equalizer or the equalizer is empty. *)
Theorem createFilterNodes_wiring props s :
  let r := createFilterNodes props s in
  let n := length (default [] (equalizer props)) in
  let base := length (filters s) in
  connections r.2 = connections s ++ chain GainNode base n
  ∧ length (connections r.2) = (length (connections s) + n)%nat
  ∧ (∀ j, (j < n)%nat →
       connections r.2 !! (length (connections s) + j)%nat
       = Some (match j with
               | O => GainNode
               | S j' => BiquadNode (base + j')
               end, BiquadNode (base + j)))
  ∧ r.1 = match n with O => GainNode | S m => BiquadNode (base + m) end.
Proof.
  intros r n base.
  assert (H : connections r.2 = connections s ++ chain GainNode base n
              ∧ r.1 = chain_tail GainNode base n).
  { subst r n base. unfold createFilterNodes.
    destruct (equalizer props) as [bands|]; cbn.
    - apply (forEach_createFilterNode_chain (default 0 (preAmp props))
               (Object_keys bands) bands 0 GainNode
               (with_qValues (imap (qValue (Object_keys bands))
                                (Object_keys bands)) s)).
    - by rewrite app_nil_r. }
  destruct H as [Hc Ht]. split_and!.
  - done.
  - by rewrite Hc, length_app, length_chain.
  - intros j Hj. rewrite Hc, lookup_app_r by lia.
    replace (length (connections s) + j - length (connections s))%nat
      with j by lia.
    by apply chain_lookup.
  - done.
Qed.

Lemma setPlayerState_fields props s :
  let s' := setPlayerState props s in
  gainNode_gain s' = gainNode_gain s
  ∧ stereoPanner_pan s' = stereoPanner_pan s
  ∧ filters s' = filters s
  ∧ connections s' = connections s
  ∧ animationFrame s' = animationFrame s
  ∧ nextFrame s' = nextFrame s
  ∧ spectrum s' = spectrum s.
Proof.
  unfold setPlayerState, stop, pause, play. cbn.
  repeat case_match; done.
Qed.

(** X2.  After [componentDidMount] the graph is a single path: source,
    gain node, the filters in the order of the equalizer's entries,
    analyser, panner, destination. *)
Theorem componentDidMount_graph props bins frame :
  let n := length (default [] (equalizer props)) in
  connections (componentDidMount props bins frame)
  = [(SourceNode, GainNode)]
    ++ chain GainNode 0 n
    ++ [(chain_tail GainNode 0 n, AnalyserNode);
        (AnalyserNode, PannerNode);
        (PannerNode, DestinationNode)].
Proof.
  intros n. unfold componentDidMount.
  pose proof (createFilterNodes_wiring props (newGraph props bins frame))
    as (Hc & _ & _ & Ht).
  destruct (createFilterNodes props (newGraph props bins frame))
    as [tail s1].
  cbn [fst snd] in Hc, Ht. fold n in Hc, Ht.
  destruct (setPlayerState_fields props
              (setVolume props
                 (connect PannerNode DestinationNode
                    (connect AnalyserNode PannerNode
                       (connect tail AnalyserNode s1)))))
    as (_ & _ & _ & Hconn & _).
  cbn [setStereoPan] . unfold setStereoPan. cbn [connections emit with_log
    with_stereoPanner_pan].
  rewrite Hconn. cbn. rewrite Hc. cbn.
  rewrite <- !app_assoc. cbn. do 3 f_equal.
  rewrite Ht. by destruct n.
Qed.

(** ** What the methods leave alone *)

Lemma forEach_createFilterNode_fields preAmp arr l i last s :
  let r := forEach (createFilterNode preAmp arr) l i (last, s) in
  gainNode_gain r.2 = gainNode_gain s
  ∧ stereoPanner_pan r.2 = stereoPanner_pan s
  ∧ animationFrame r.2 = animationFrame s
  ∧ nextFrame r.2 = nextFrame s
  ∧ spectrum r.2 = spectrum s.
Proof.
  revert i last s. induction l as [|e l IH]; intros i last s; cbn; [done|].
  set (s1 := with_filters _ _).
  by destruct (IH (S i) (BiquadNode (length (filters s))) s1)
    as (-> & -> & -> & -> & ->).
Qed.

Lemma createFilterNodes_fields props s :
  let s' := (createFilterNodes props s).2 in
  gainNode_gain s' = gainNode_gain s
  ∧ stereoPanner_pan s' = stereoPanner_pan s
  ∧ animationFrame s' = animationFrame s
  ∧ nextFrame s' = nextFrame s
  ∧ spectrum s' = spectrum s
  ∧ log s' = log s.
Proof.
  unfold createFilterNodes.
  destruct (equalizer props) as [bands|] eqn:Hb; [|done].
  pose proof (forEach_createFilterNode_fields (default 0 (preAmp props))
                (Object_keys bands) bands 0 GainNode
                (with_qValues (imap (qValue (Object_keys bands))
                                 (Object_keys bands)) s))
    as (H1 & H2 & H3 & H4 & H5).
  pose proof (forEach_createFilterNode (default 0 (preAmp props))
                (Object_keys bands) bands 0 GainNode
                (with_qValues (imap (qValue (Object_keys bands))
                                 (Object_keys bands)) s))
    as (_ & _ & H6).
  split_and!; [exact H1 | exact H2 | exact H3 | exact H4 | exact H5
              | exact H6].
Qed.

Lemma handleVisualizationChange_fields props s :
  let s' := handleVisualizationChange props s in
  gainNode_gain s' = gainNode_gain s
  ∧ stereoPanner_pan s' = stereoPanner_pan s
  ∧ animationFrame s' = Some (nextFrame s)
  ∧ nextFrame s' = Pos.succ (nextFrame s)
  ∧ spectrum s' = spectrum s
  ∧ frequencyData s' = spectrum s.
Proof.
  unfold handleVisualizationChange.
  by destruct (onVisualizationChange props).
Qed.

Lemma forEach_patchGain_fields preAmp vs i c s :
  let r := forEach (patchGain preAmp) vs i (c, s) in
  gainNode_gain r.2 = gainNode_gain s
  ∧ stereoPanner_pan r.2 = stereoPanner_pan s
  ∧ animationFrame r.2 = animationFrame s
  ∧ nextFrame r.2 = nextFrame s
  ∧ spectrum r.2 = spectrum s.
Proof.
  revert i c s. induction vs as [|v vs IH]; intros i c s; cbn; [done|].
  destruct c; [|apply IH].
  destruct (filters s !! i) as [f|].
  - set (s1 := emit _ _).
    by destruct (IH (S i) Normal s1) as (-> & -> & -> & -> & ->).
  - set (s1 := emit _ _).
    by destruct (IH (S i) TypeError s1) as (-> & -> & -> & -> & ->).
Qed.

Lemma updateEqualizer_fields prevProps props s :
  let s' := (updateEqualizer prevProps props s).2 in
  gainNode_gain s' = gainNode_gain s
  ∧ stereoPanner_pan s' = stereoPanner_pan s.
Proof.
  unfold updateEqualizer.
  destruct (shouldUpdateEqualizer prevProps props); [|done].
  by destruct (forEach_patchGain_fields (default 0 (preAmp props))
                 (Object_values (default [] (equalizer props))) 0 Normal s)
    as (-> & -> & _).
Qed.

Lemma updateVisualization_fields prevProps props s :
  let s' := updateVisualization prevProps props s in
  gainNode_gain s' = gainNode_gain s
  ∧ stereoPanner_pan s' = stereoPanner_pan s.
Proof.
  unfold updateVisualization.
  destruct (handleVisualizationChange_fields props s) as (H1 & H2 & _).
  destruct (_ && _ && _); destruct (_ && _); cbn; by rewrite ?H1, ?H2.
Qed.

Lemma updatePlayerState_fields prevProps props s :
  let s' := updatePlayerState prevProps props s in
  gainNode_gain s' = gainNode_gain s
  ∧ stereoPanner_pan s' = stereoPanner_pan s
  ∧ animationFrame s' = animationFrame s
  ∧ nextFrame s' = nextFrame s
  ∧ spectrum s' = spectrum s.
Proof.
  unfold updatePlayerState. destruct (strict_neq_str _ _); [|done].
  destruct (setPlayerState_fields props s) as (? & ? & _ & _ & ? & ? & ?).
  done.
Qed.

Lemma updatePosition_fields prevProps props s :
  let s' := updatePosition prevProps props s in
  gainNode_gain s' = gainNode_gain s
  ∧ stereoPanner_pan s' = stereoPanner_pan s
  ∧ animationFrame s' = animationFrame s
  ∧ nextFrame s' = nextFrame s
  ∧ spectrum s' = spectrum s.
Proof.
  unfold updatePosition, setPosition.
  destruct (shouldUpdatePosition _ _); [|done].
  by destruct (truthy _).
Qed.

(** ** Mounting *)

(** X3.  [componentDidMount] issues exactly: the volume written to the
    gain node, the transport commands of the play status, the pan.  The
    [position] of the props is not applied, and no animation frame is
    requested or cancelled. *)
Theorem componentDidMount_commands props bins frame :
  log (componentDidMount props bins frame)
  = [gain_set (default 100 (volume props) / 100)]
    ++ playerCommands (playStatus props)
    ++ [pan_set (stereoPan_or_0 props)].
Proof.
  unfold componentDidMount.
  pose proof (createFilterNodes_fields props (newGraph props bins frame))
    as (_ & _ & Ha & _ & _ & Hl).
  destruct (createFilterNodes props (newGraph props bins frame))
    as [tail s1].
  cbn [snd] in Ha, Hl. cbn in Ha, Hl.
  unfold setStereoPan, setPlayerState, stop, pause, play, setVolume,
    playerCommands.
  destruct (playStatus props) as [status|]; cbn; rewrite ?Ha, ?Hl.
  - destruct (String.eqb status SoundStatus.PAUSED); cbn;
      rewrite ?Ha, ?Hl; [done|].
    destruct (String.eqb status SoundStatus.STOPPED); cbn;
      rewrite ?Ha, ?Hl; done.
  - done.
Qed.

(** ** The gain node and the panner follow the props *)

Lemma stereoPan_or_0_default props :
  stereoPan_or_0 props == default 0 (stereoPan props).
Proof.
  unfold stereoPan_or_0. destruct (stereoPan props) as [v|]; cbn; [|done].
  destruct (Qeq_bool v 0) eqn:E; cbn; [|done].
  apply Qeq_bool_eq in E. by rewrite E.
Qed.

Lemma strict_neq_false x y :
  strict_neq x y = false →
  (x = None ∧ y = None) ∨ ∃ a b, x = Some a ∧ y = Some b ∧ a == b.
Proof.
  destruct x as [a|], y as [b|]; cbn; try done.
  - rewrite negb_false_iff. intros H%Qeq_bool_eq. right. by exists a, b.
  - by left.
Qed.

(** X4.  The gain node holds the volume over [100], the volume read as
    [100] when it is left out: [componentDidMount] sets it so and every
    update keeps it so.  Hence a volume between [0] and [100] gives a
    gain between [0] and [1], and no volume gives [1]. *)
Theorem gain_follows_volume :
  (∀ props bins frame,
     gainNode_gain (componentDidMount props bins frame)
     = default 100 (volume props) / 100)
  ∧ (∀ prevProps props s,
       gainNode_gain s == default 100 (volume prevProps) / 100 →
       let s' := (componentDidUpdate prevProps props s).2 in
       gainNode_gain s' == default 100 (volume props) / 100
       ∧ (∀ v, volume props = Some v → 0 <= v → v <= 100 →
            0 <= gainNode_gain s' ∧ gainNode_gain s' <= 1)
       ∧ (volume props = None → gainNode_gain s' == 1)).
Proof.
  split.
  - intros props bins frame. unfold componentDidMount.
    destruct (createFilterNodes props (newGraph props bins frame))
      as [tail s1].
    unfold setStereoPan. cbn [gainNode_gain emit with_log
      with_stereoPanner_pan].
    by destruct (setPlayerState_fields props
                   (setVolume props
                      (connect PannerNode DestinationNode
                         (connect AnalyserNode PannerNode
                            (connect tail AnalyserNode s1)))))
      as (-> & _).
  - intros prevProps props s Hinv s'.
    assert (Hg : gainNode_gain s' == default 100 (volume props) / 100).
    { subst s'. unfold componentDidUpdate.
      destruct (updateEqualizer_fields prevProps props
                  (updateVisualization prevProps props
                     (updateStereoPan prevProps props
                        (updatePlayerState prevProps props
                           (updatePosition prevProps props
                              (updateVolume prevProps props s))))))
        as (-> & _).
      destruct (updateVisualization_fields prevProps props
                  (updateStereoPan prevProps props
                     (updatePlayerState prevProps props
                        (updatePosition prevProps props
                           (updateVolume prevProps props s)))))
        as (-> & _).
      assert (Hpan : ∀ s0, gainNode_gain (updateStereoPan prevProps props s0)
                           = gainNode_gain s0).
      { intros s0. unfold updateStereoPan, setStereoPan.
        by destruct (strict_neq _ _). }
      rewrite Hpan.
      destruct (updatePlayerState_fields prevProps props
                  (updatePosition prevProps props
                     (updateVolume prevProps props s))) as (-> & _).
      destruct (updatePosition_fields prevProps props
                  (updateVolume prevProps props s)) as (-> & _).
      unfold updateVolume, setVolume.
      destruct (strict_neq (volume props) (volume prevProps)) eqn:E;
        [done|].
      rewrite Hinv.
      apply strict_neq_false in E as [[-> ->]|(a & b & -> & -> & Hab)];
        [done|].
      cbn. by rewrite Hab. }
    split_and!; [done| |].
    + intros v Hv H0 H100. rewrite Hg, Hv.
      change (default 100 (Some v)) with v.
      split.
      * apply Qle_shift_div_l; lra.
      * apply Qle_shift_div_r; lra.
    + intros Hv. rewrite Hg, Hv. done.
Qed.

(** X5.  The panner holds the stereo pan, read as [0] when it is left
    out: [componentDidMount] sets it so and every update keeps it so. *)
Theorem pan_follows_stereoPan :
  (∀ props bins frame,
     stereoPanner_pan (componentDidMount props bins frame)
     == default 0 (stereoPan props))
  ∧ (∀ prevProps props s,
       stereoPanner_pan s == default 0 (stereoPan prevProps) →
       stereoPanner_pan (componentDidUpdate prevProps props s).2
       == default 0 (stereoPan props)).
Proof.
  split.
  - intros props bins frame. unfold componentDidMount.
    destruct (createFilterNodes props (newGraph props bins frame))
      as [tail s1].
    unfold setStereoPan. cbn. apply stereoPan_or_0_default.
  - intros prevProps props s Hinv. unfold componentDidUpdate.
    destruct (updateEqualizer_fields prevProps props
                (updateVisualization prevProps props
                   (updateStereoPan prevProps props
                      (updatePlayerState prevProps props
                         (updatePosition prevProps props
                            (updateVolume prevProps props s))))))
      as (_ & ->).
    destruct (updateVisualization_fields prevProps props
                (updateStereoPan prevProps props
                   (updatePlayerState prevProps props
                      (updatePosition prevProps props
                         (updateVolume prevProps props s)))))
      as (_ & ->).
    unfold updateStereoPan, setStereoPan.
    destruct (strict_neq _ _) eqn:E.
    + cbn. apply stereoPan_or_0_default.
    + destruct (updatePlayerState_fields prevProps props
                  (updatePosition prevProps props
                     (updateVolume prevProps props s))) as (_ & -> & _).
      destruct (updatePosition_fields prevProps props
                  (updateVolume prevProps props s)) as (_ & -> & _).
      assert (stereoPanner_pan (updateVolume prevProps props s)
              = stereoPanner_pan s) as ->.
      { unfold updateVolume, setVolume.
        by destruct (strict_neq (volume props) (volume prevProps)). }
      rewrite Hinv.
      apply strict_neq_false in E as [[? _]|(a & b & Ha & -> & Hab)];
        [done|].
      injection Ha as <-. cbn. by rewrite Hab.
Qed.

(** ** The commands of an update *)

Lemma issues_trans f s s' s'' l l' :
  issues f s s' l → issues f s' s'' l' → issues f s s'' (l ++ l').
Proof.
  intros (n1 & H1 & F1) (n2 & H2 & F2). exists (n1 ++ n2).
  rewrite H2, H1, app_assoc. split; [done|].
  by rewrite List.filter_app, F1, F2.
Qed.

Lemma extends_issues f s s' :
  extends (λ e, f e = false) s s' → issues f s s' [].
Proof.
  intros (new & Hn & HF). exists new. split; [done|]. clear Hn.
  induction HF as [|e l He _ IH]; cbn; [done|]. by rewrite He.
Qed.

Lemma issues_issued f s s' l :
  issues f s s' l → List.filter f (issued s s') = l.
Proof. intros (new & Hn & HF). by rewrite (issued_app _ _ _ Hn). Qed.

Lemma forEach_patchGain_extends P preAmp vs i c s :
  (∀ idx v, P (filter_gain_set idx v)) →
  (∀ idx, P (filter_undefined idx)) →
  extends P s (forEach (patchGain preAmp) vs i (c, s)).2.
Proof.
  intros H1 H2. revert i c s.
  induction vs as [|v vs IH]; intros i c s; cbn; [by apply extends_refl|].
  destruct c; [|apply IH].
  destruct (filters s !! i) as [f|].
  - eapply extends_trans; [|apply IH].
    eapply extends_emit; [apply H1 | reflexivity | by apply extends_refl].
  - eapply extends_trans; [|apply IH].
    eapply extends_emit; [apply H2 | reflexivity | by apply extends_refl].
Qed.

Lemma updateEqualizer_extends P prevProps props s :
  (∀ idx v, P (filter_gain_set idx v)) →
  (∀ idx, P (filter_undefined idx)) →
  extends P s (updateEqualizer prevProps props s).2.
Proof.
  intros H1 H2. unfold updateEqualizer.
  destruct (shouldUpdateEqualizer prevProps props);
    [|by apply extends_refl].
  by apply forEach_patchGain_extends.
Qed.

(** X6.  An update ends in a [TypeError] exactly when it is detected as
    an equalizer or pre-amp change and the new equalizer has more entries
    than there are filters; an undetected change never throws. *)
Theorem componentDidUpdate_throws prevProps props s :
  (componentDidUpdate prevProps props s).1 = TypeError
  ↔ shouldUpdateEqualizer prevProps props = true
    ∧ (length (filters s) < length (default [] (equalizer props)))%nat.
Proof.
  rewrite componentDidUpdate_steps. unfold updateEqualizer.
  destruct (updateTransport_frame prevProps props s) as (Hf & _).
  set (s1 := updateTransport prevProps props s) in *.
  destruct (shouldUpdateEqualizer prevProps props); cycle 1.
  { cbn. split; [done|]. by intros [? _]. }
  destruct (decide (length (default [] (equalizer props))
                    ≤ length (filters s))%nat) as [Hle|Hgt].
  - destruct (forEach_patchGain_in_range (default 0 (preAmp props))
                (Object_values (default [] (equalizer props))) 0 s1)
      as [Hc _]; [rewrite length_Object_values, Hf; lia|].
    rewrite Hc. split; [done|]. intros [_ ?]. lia.
  - destruct (forEach_patchGain_overrun (default 0 (preAmp props))
                (Object_values (default [] (equalizer props))) 0 s1)
      as [Hc _]; [lia | rewrite length_Object_values, Hf; lia |].
    rewrite Hc. split; [|done]. intros _. split; [done|lia].
Qed.

Lemma setPlayerState_issues props s :
  issues is_transport s (setPlayerState props s)
    (playerCommands (playStatus props)).
Proof.
  assert (Hpause : issues is_transport s (pause props s) [audio_pause]).
  { unfold issues, pause. cbn. destruct (animationFrame s) as [h|]; cbn.
    - exists [audio_pause; cancel_animation_frame (Some h)].
      by rewrite <- app_assoc.
    - by exists [audio_pause]. }
  assert (Hplay : issues is_transport s (play props s) [audio_play])
    by (by exists [audio_play]).
  unfold setPlayerState, playerCommands.
  destruct (playStatus props) as [status|]; [|done].
  destruct (String.eqb status SoundStatus.PAUSED); [done|].
  destruct (String.eqb status SoundStatus.STOPPED); [|done].
  unfold stop.
  apply (issues_trans _ _ (pause props s) _
           [audio_pause] [audio_set_currentTime 0]); [done|].
  by exists [audio_set_currentTime 0].
Qed.

(** X7.  The transport commands of an update are at most one seek, to
    the new position, followed by the commands of the play status when
    it changed; no other step of the update commands the transport.  So
    an update that seeks and stops ends with the position set to zero. *)
Theorem update_transport_commands prevProps props s :
  List.filter is_transport
    (issued s (componentDidUpdate prevProps props s).2)
  = (if shouldUpdatePosition prevProps props
     then [audio_set_currentTime (default 0 (position props))]
     else [])
    ++ (if strict_neq_str (playStatus props) (playStatus prevProps)
        then playerCommands (playStatus props)
        else []).
Proof.
  apply issues_issued. rewrite componentDidUpdate_steps.
  unfold updateTransport.
  set (pos := if shouldUpdatePosition prevProps props then _ else _).
  set (ply := if strict_neq_str _ _ then _ else _).
  set (s1 := updateVolume prevProps props s).
  set (s2 := updatePosition prevProps props s1).
  set (s3 := updatePlayerState prevProps props s2).
  set (s4 := updateStereoPan prevProps props s3).
  set (s5 := updateVisualization prevProps props s4).
  replace (pos ++ ply) with ([] ++ pos ++ ply ++ [] ++ [] ++ [])
    by (by rewrite !app_nil_r).
  apply (issues_trans _ _ s1);
    [by apply extends_issues, updateVolume_extends|].
  apply (issues_trans _ _ s2).
  { subst pos s2. unfold issues, updatePosition, setPosition,
      shouldUpdatePosition.
    destruct (truthy (position props)).
    - destruct (_ || _).
      + by exists [audio_set_currentTime (default 0 (position props))].
      + exists []. by rewrite app_nil_r.
    - exists []. by rewrite app_nil_r. }
  apply (issues_trans _ _ s3).
  { subst ply s3. unfold updatePlayerState.
    destruct (strict_neq_str _ _); [apply setPlayerState_issues|].
    exists []. by rewrite app_nil_r. }
  apply (issues_trans _ _ s4);
    [by apply extends_issues, updateStereoPan_extends|].
  apply (issues_trans _ _ s5);
    [by apply extends_issues, updateVisualization_extends|].
  by apply extends_issues, updateEqualizer_extends.
Qed.

Lemma updateStereoPan_fields prevProps props s :
  let s' := updateStereoPan prevProps props s in
  animationFrame s' = animationFrame s
  ∧ nextFrame s' = nextFrame s
  ∧ spectrum s' = spectrum s.
Proof.
  unfold updateStereoPan, setStereoPan. by destruct (strict_neq _ _).
Qed.

Lemma updateVolume_fields prevProps props s :
  let s' := updateVolume prevProps props s in
  animationFrame s' = animationFrame s
  ∧ nextFrame s' = nextFrame s
  ∧ spectrum s' = spectrum s.
Proof.
  unfold updateVolume, setVolume. by destruct (strict_neq _ _).
Qed.

(** X8.  An update runs one visualization tick exactly when the callback
    is new and there is an equalizer: it then requests one animation
    frame, reads the analyser and delivers the values computed from the
    analyser's spectrum.  No other step of the update does any of
    this. *)
Theorem update_visualization_commands prevProps props s :
  List.filter is_visualization
    (issued s (componentDidUpdate prevProps props s).2)
  = if startsVisualization prevProps props
    then [request_animation_frame (nextFrame s);
          get_byte_frequency_data;
          visualization_change
            (formatDataVizByFrequency props (spectrum s))]
    else [].
Proof.
  apply issues_issued. rewrite componentDidUpdate_steps.
  unfold updateTransport.
  set (viz := if startsVisualization prevProps props then _ else _).
  set (s1 := updateVolume prevProps props s).
  set (s2 := updatePosition prevProps props s1).
  set (s3 := updatePlayerState prevProps props s2).
  replace viz with ([] ++ [] ++ [] ++ [] ++ viz ++ [])
    by (by rewrite !app_nil_r).
  apply (issues_trans _ _ s1);
    [by apply extends_issues, updateVolume_extends|].
  apply (issues_trans _ _ s2);
    [by apply extends_issues, updatePosition_extends|].
  apply (issues_trans _ _ s3);
    [by apply extends_issues, updatePlayerState_extends|].
  apply (issues_trans _ _ (updateStereoPan prevProps props s3));
    [by apply extends_issues, updateStereoPan_extends|].
  apply (issues_trans _ _
           (updateVisualization prevProps props
              (updateStereoPan prevProps props s3)));
    [|by apply extends_issues, updateEqualizer_extends].
  subst s1 s2 s3.
  set (s4 := updateStereoPan _ _ _).
  assert (Hn : nextFrame s4 = nextFrame s ∧ spectrum s4 = spectrum s).
  { unfold s4.
    destruct (updateStereoPan_fields prevProps props
                (updatePlayerState prevProps props
                   (updatePosition prevProps props
                      (updateVolume prevProps props s))))
      as (_ & -> & ->).
    destruct (updatePlayerState_fields prevProps props
                (updatePosition prevProps props
                   (updateVolume prevProps props s)))
      as (_ & _ & _ & -> & ->).
    destruct (updatePosition_fields prevProps props
                (updateVolume prevProps props s))
      as (_ & _ & _ & -> & ->).
    by destruct (updateVolume_fields prevProps props s) as (_ & -> & ->). }
  destruct Hn as [Hn Hs]. clearbody s4.
  subst viz. unfold updateVisualization, startsVisualization.
  unfold issues.
  destruct (onVisualizationChange prevProps) eqn:Hp,
           (onVisualizationChange props) eqn:Hc; cbn.
  - exists []. by rewrite app_nil_r.
  - by exists [cancel_animation_frame (animationFrame s4)].
  - destruct (bool_decide (is_Some (equalizer props))); cbn.
    + unfold handleVisualizationChange. rewrite Hc. cbn.
      rewrite Hn, Hs.
      exists [request_animation_frame (nextFrame s);
              get_byte_frequency_data;
              visualization_change
                (formatDataVizByFrequency props (spectrum s))].
      split; [|done]. by rewrite <- !app_assoc.
    + exists []. by rewrite app_nil_r.
  - exists []. by rewrite app_nil_r.
Qed.

(** ** Which bins the spectrum scan reads *)

Lemma viz_state_data_independent frequencies data data' k :
  viz_i (viz_state frequencies data k)
  = viz_i (viz_state frequencies data' k)
  ∧ currentIndex (viz_state frequencies data k)
    = currentIndex (viz_state frequencies data' k).
Proof.
  induction k as [|k [Hi Hc]]; [done|].
  rewrite !viz_state_S. unfold viz_body. rewrite <- Hi, <- Hc.
  by destruct (_ && _).
Qed.

Lemma viz_hits_data_independent frequencies data data' k :
  viz_hits frequencies data k = viz_hits frequencies data' k.
Proof.
  induction k as [|k IH]; [done|]. cbn [viz_hits].
  destruct (viz_state_data_independent frequencies data data' k)
    as [-> ->].
  by rewrite IH.
Qed.

Lemma data_at_nat data c : data_at data (Z.of_nat c) = data !! c.
Proof.
  unfold data_at. destruct (Z.ltb_spec (Z.of_nat c) 0); [lia|].
  by rewrite Nat2Z.id.
Qed.

(** X9.  Without an equalizer, or with an empty one, the scan returns
    nothing.  Otherwise the bins it reads depend on the keys of the
    equalizer only, not on the spectrum: the result is the spectrum read
    at these bins, all of them below the number of checkpoints visited.
    So the result has the same length for every spectrum, and every value
    is defined as soon as the spectrum has that many bins. *)
Theorem scan_reads_fixed_bins :
  (∀ props data,
     equalizer props = None ∨ equalizer props = Some [] →
     formatDataVizByFrequency props data = [])
  ∧ (∀ props bands data,
       equalizer props = Some bands →
       let frequencies := Number <$> Object_keys bands in
       let N := viz_iterations frequencies in
       let bins := viz_hits frequencies [] N in
       formatDataVizByFrequency props data = (λ c, data !! c) <$> bins
       ∧ Forall (λ c, (c < N)%nat) bins
       ∧ (∀ data', length (formatDataVizByFrequency props data')
                   = length (formatDataVizByFrequency props data))
       ∧ ((N ≤ length data)%nat →
          Forall is_Some (formatDataVizByFrequency props data))).
Proof.
  split.
  - intros props data [H|H]; unfold formatDataVizByFrequency; by rewrite H.
  - intros props bands data Hb frequencies N bins.
    assert (Hout : ∀ d, formatDataVizByFrequency props d
                        = (λ c, d !! c) <$> bins).
    { intros d. rewrite (formatDataVizByFrequency_final _ bands) by done.
      destruct (viz_hits_spec frequencies d N) as (_ & Hv & _).
      fold frequencies N. rewrite Hv.
      unfold bins. rewrite (viz_hits_data_independent _ d [] N).
      apply list_fmap_ext. intros _ c _. apply data_at_nat. }
    assert (Hlt : Forall (λ c, (c < N)%nat) bins).
    { apply Forall_lookup. intros j c Hj.
      by destruct (proj2 (proj2 (viz_hits_spec frequencies [] N)) j c Hj). }
    split_and!; [done|done| |].
    + intros data'. by rewrite !Hout, !length_fmap.
    + intros Hlen. rewrite Hout. apply Forall_fmap.
      eapply Forall_impl; [exact Hlt|]. intros c Hc. cbn in Hc |- *.
      apply lookup_lt_is_Some_2. lia.
Qed.

(** ** A tick and a pause *)

(** X11.  A visualization tick stores the handle of the frame it
    requests and copies the analyser's spectrum; a pause after it cancels
    that handle and keeps it stored.  After two ticks a pause cancels the
    handle of the second one only. *)
Theorem pause_cancels_latest_frame props1 props2 props s :
  let s1 := handleVisualizationChange props1 s in
  let s2 := handleVisualizationChange props2 s1 in
  animationFrame s1 = Some (nextFrame s)
  ∧ frequencyData s1 = spectrum s
  ∧ issued s1 (pause props s1)
    = [audio_pause; cancel_animation_frame (Some (nextFrame s))]
  ∧ animationFrame (pause props s1) = Some (nextFrame s)
  ∧ issued s2 (pause props s2)
    = [audio_pause;
       cancel_animation_frame (Some (Pos.succ (nextFrame s)))]
  ∧ nextFrame s ≠ Pos.succ (nextFrame s).
Proof.
  intros s1 s2.
  destruct (handleVisualizationChange_fields props1 s)
    as (_ & _ & Ha1 & Hn1 & _ & Hf1).
  destruct (handleVisualizationChange_fields props2 s1)
    as (_ & _ & Ha2 & _).
  fold s1 in Ha1, Hn1, Hf1, Ha2. fold s2 in Ha2. rewrite Hn1 in Ha2.
  assert (Hp : ∀ s0 h, animationFrame s0 = Some h →
            issued s0 (pause props s0)
            = [audio_pause; cancel_animation_frame (Some h)]
            ∧ animationFrame (pause props s0) = Some h).
  { intros s0 h Hh. unfold pause. cbn. rewrite Hh. split; [|done].
    apply issued_app. cbn. by rewrite <- app_assoc. }
  destruct (Hp s1 _ Ha1) as [Hi1 Hk1].
  destruct (Hp s2 _ Ha2) as [Hi2 _].
  split_and!; try done. lia.
Qed.

(** ** The derived Q values *)

(** X12.  When the keys of the equalizer denote positive, strictly
    ascending numbers, no derived Q divides by zero and every derived Q
    that is not [null] is positive. *)
Theorem qValues_positive props bands s :
  equalizer props = Some bands →
  (∀ i k, Object_keys bands !! i = Some k → 0 < Number k) →
  (∀ i k k', Object_keys bands !! i = Some k →
     Object_keys bands !! S i = Some k' → Number k < Number k') →
  ∀ i q, qValues (createFilterNodes props s).2 !! i = Some (Some q) →
    0 < q
    ∧ ∃ fp f fn,
        Object_keys bands !! (i - 1)%nat = Some fp
        ∧ Object_keys bands !! i = Some f
        ∧ Object_keys bands !! (i + 1)%nat = Some fn
        ∧ Number fp < Number fn
        ∧ q == 2 * Number f / (Number fn - Number fp).
Proof.
  intros Hb Hpos Hasc i q Hq.
  destruct (createFilterNodes_filters props bands s Hb) as (_ & Hqs & _).
  rewrite Hqs, list_lookup_imap in Hq.
  destruct (Object_keys bands !! i) as [f|] eqn:Hi; [|done].
  cbn in Hq. unfold qValue in Hq.
  destruct (first_or_last i (length (Object_keys bands))) eqn:Hfl; [done|].
  apply first_or_last_false in Hfl as [H0 Hn].
  apply lookup_lt_Some in Hi as Hlt.
  destruct (lookup_lt_is_Some_2 (Object_keys bands) (i - 1)) as [fp Hp];
    [lia|].
  destruct (lookup_lt_is_Some_2 (Object_keys bands) (i + 1)) as [fn Hs];
    [lia|].
  rewrite (list_lookup_total_correct _ _ _ Hp),
    (list_lookup_total_correct _ _ _ Hs) in Hq.
  injection Hq as <-.
  assert (Number fp < Number f) as H1.
  { apply (Hasc (i - 1)%nat); [done|].
    by replace (S (i - 1)) with i by lia. }
  assert (Number f < Number fn) as H2.
  { apply (Hasc i); [done|]. by replace (S i) with (i + 1)%nat by lia. }
  pose proof (Hpos i f Hi) as Hf.
  assert (Habs : Qabs (Number fn - Number fp) == Number fn - Number fp)
    by (apply Qabs_pos; lra).
  split.
  - rewrite Habs. apply Qlt_shift_div_l; [lra|].
    rewrite Qmult_0_l. lra.
  - exists fp, f, fn. split_and!; try done; [lra|]. by rewrite Habs.
Qed.

(** ** When every band gets its value *)

(** A window holds at most one checkpoint. *)
Lemma in_window_unique frequencies j c c' :
  in_window frequencies j (checkpoint c) →
  in_window frequencies j (checkpoint c') →
  c = c'.
Proof.
  intros (f & Hf & H1 & H2) (f' & Hf' & H1' & H2').
  assert (f' = f) as -> by congruence.
  destruct (lt_eq_lt_dec c c') as [[Hlt|]|Hlt]; [|done|].
  - assert (S c ≤ c')%nat as Hle by lia.
    apply checkpoint_le in Hle. rewrite checkpoint_S in Hle. lra.
  - assert (S c' ≤ c)%nat as Hle by lia.
    apply checkpoint_le in Hle. rewrite checkpoint_S in Hle. lra.
Qed.

(** The cursor and the values stay while no checkpoint falls in the
    window of the band under the cursor. *)
Lemma viz_state_stay frequencies data k c j :
  (k ≤ c)%nat →
  currentIndex (viz_state frequencies data k) = j →
  (∀ k', (k ≤ k')%nat → (k' < c)%nat →
         ¬ in_window frequencies j (checkpoint k')) →
  currentIndex (viz_state frequencies data c) = j
  ∧ values (viz_state frequencies data c)
    = values (viz_state frequencies data k).
Proof.
  intros Hkc Hj. induction c as [|c IH]; intros Hno.
  - by assert (k = 0%nat) as -> by lia.
  - destruct (decide (k = S c)) as [->|Hne]; [done|].
    destruct IH as [Hc Hv]; [lia | intros k' ? ?; apply Hno; lia |].
    rewrite viz_state_S, viz_body_miss; [done|].
    rewrite Hc. intros Hw.
    apply (Hno c); [lia..|].
    by apply (in_window_proper _ _ _ _ (viz_state_i frequencies data c)).
Qed.

(** At a checkpoint inside the window of the band under the cursor the
    sample of its bin is pushed. *)
Lemma viz_state_hit frequencies data c j :
  currentIndex (viz_state frequencies data c) = j →
  in_window frequencies j (checkpoint c) →
  currentIndex (viz_state frequencies data (S c)) = S j
  ∧ values (viz_state frequencies data (S c))
    = values (viz_state frequencies data c) ++ [data !! c].
Proof.
  intros Hj Hw.
  assert (Hw' : in_window frequencies
                  (currentIndex (viz_state frequencies data c))
                  (viz_i (viz_state frequencies data c))).
  { rewrite Hj. apply (in_window_proper _ _ (checkpoint c)); [|done].
    symmetry. apply viz_state_i. }
  rewrite viz_state_S, (viz_body_hit _ _ _ Hw').
  cbn [currentIndex values]. rewrite Hj.
  by rewrite (Math_round_checkpoint _ c (viz_state_i frequencies data c)),
    data_at_nat.
Qed.

(** The bin right above a frequency that is not a checkpoint lies in its
    window. *)
Lemma band_bin_window f :
  0 <= f → (∀ m, ¬ f == checkpoint m) →
  f < checkpoint (band_bin f) ∧ checkpoint (band_bin f) < f + HERTZ_ITER.
Proof.
  intros H0 Hm. pose proof HERTZ_ITER_pos as HH.
  pose proof (Qfloor_le (f / HERTZ_ITER)) as Hlo.
  pose proof (Qlt_floor (f / HERTZ_ITER)) as Hhi.
  assert (Hf : f / HERTZ_ITER * HERTZ_ITER == f) by (field; lra).
  assert (0 <= f / HERTZ_ITER) as Hq by (apply Qle_shift_div_l; lra).
  apply Qfloor_resp_le in Hq. change (Qfloor 0) with 0%Z in Hq.
  set (z := Qfloor (f / HERTZ_ITER)) in *.
  assert (Hc : checkpoint (band_bin f)
               == inject_Z z * HERTZ_ITER + HERTZ_ITER).
  { unfold checkpoint, band_bin. fold z. rewrite Z2Nat.id by lia.
    rewrite inject_Z_plus. change (inject_Z 1) with 1. ring. }
  assert (Hle : inject_Z z * HERTZ_ITER <= f).
  { rewrite <- Hf. apply Qmult_le_compat_r; lra. }
  assert (Hlt : f < inject_Z (z + 1) * HERTZ_ITER).
  { rewrite <- Hf at 1. apply Qmult_lt_compat_r; lra. }
  rewrite inject_Z_plus in Hlt. change (inject_Z 1) with 1 in Hlt.
  rewrite Hc. split; [lra|].
  destruct (Qle_lt_or_eq _ _ Hle) as [|Heq]; [lra|].
  destruct (Hm (Z.to_nat z)). unfold checkpoint.
  rewrite Z2Nat.id by lia. by symmetry.
Qed.

(** The cursor walks through bands that are non-negative, at least one
    step apart and on no checkpoint, giving each one the sample of the
    bin right above it. *)
Lemma viz_state_covers frequencies data :
  (∀ j f, frequencies !! j = Some f →
     0 <= f ∧ ∀ m, ¬ f == checkpoint m) →
  (∀ j f f', frequencies !! j = Some f → frequencies !! S j = Some f' →
     f + HERTZ_ITER <= f') →
  ∀ j, (j ≤ length frequencies)%nat →
    ∃ k, currentIndex (viz_state frequencies data k) = j
         ∧ values (viz_state frequencies data k)
           = (λ f, data !! band_bin f) <$> take j frequencies
         ∧ (∀ f, frequencies !! j = Some f → (k ≤ band_bin f)%nat)
         ∧ (j = length frequencies →
            (k ≤ viz_iterations frequencies)%nat).
Proof.
  intros Hpos Hgap. induction j as [|j IH]; intros Hj.
  - exists 0%nat. split_and!; [done|done|intros; lia|intros; lia].
  - destruct IH as (k & Hc & Hv & Hk & _); [lia|].
    destruct (lookup_lt_is_Some_2 frequencies j) as [f Hf]; [lia|].
    destruct (Hpos j f Hf) as [H0 Hm].
    destruct (band_bin_window f H0 Hm) as [Hlo Hhi].
    assert (Hw : in_window frequencies j (checkpoint (band_bin f)))
      by (by exists f).
    destruct (viz_state_stay frequencies data k (band_bin f) j)
      as [Hc' Hv']; [by apply Hk | done | |].
    { intros k' _ Hlt Hw'.
      pose proof (in_window_unique _ _ _ _ Hw Hw'). lia. }
    destruct (viz_state_hit frequencies data (band_bin f) j Hc' Hw)
      as [Hc'' Hv''].
    exists (S (band_bin f)). split_and!.
    + done.
    + rewrite Hv'', Hv', Hv, (take_S_r _ _ _ Hf), fmap_app. done.
    + intros f' Hf'. pose proof (Hgap j f f' Hf Hf') as Hg.
      destruct (Hpos _ _ Hf') as [H0' Hm'].
      destruct (band_bin_window f' H0' Hm') as [Hlo' _].
      assert (checkpoint (band_bin f) < checkpoint (band_bin f')) as Hcc
        by lra.
      apply checkpoint_lt in Hcc. lia.
    + intros Hn.
      assert ((band_bin f < viz_iterations frequencies)%nat); [|lia].
      apply scanned_iterations. exists f. split; [|lra].
      rewrite last_lookup. rewrite <- Hn. done.
Qed.

(** X10.  When the frequencies are non-negative, each at least one step
    above the one before, and none is a multiple of the step, every band
    gets a value: band [j] gets the sample of the bin right above its
    frequency, [floor (f_j / 23.4) + 1]. *)
Theorem scan_covers_every_band props bands data :
  equalizer props = Some bands →
  let frequencies := Number <$> Object_keys bands in
  (∀ j f, frequencies !! j = Some f →
     0 <= f ∧ ∀ m, ¬ f == checkpoint m) →
  (∀ j f f', frequencies !! j = Some f → frequencies !! S j = Some f' →
     f + HERTZ_ITER <= f') →
  formatDataVizByFrequency props data
  = (λ f, data !! band_bin f) <$> frequencies.
Proof.
  intros Hb frequencies Hpos Hgap.
  rewrite (formatDataVizByFrequency_final _ bands) by done.
  fold frequencies.
  destruct (viz_state_covers frequencies data Hpos Hgap
              (length frequencies)) as (k & Hc & Hv & _ & Hk); [done|].
  destruct (viz_state_stay frequencies data k
              (viz_iterations frequencies) (length frequencies))
    as [_ Hv']; [by apply Hk | done | |].
  { intros k' _ _ (f & Hf & _). apply lookup_lt_Some in Hf. lia. }
  by rewrite Hv', Hv, firstn_all.
Qed.

(** ** The mounted chain *)

Lemma componentDidMount_filters_eq props bins frame :
  filters (componentDidMount props bins frame)
  = filters (createFilterNodes props (newGraph props bins frame)).2.
Proof.
  unfold componentDidMount.
  destruct (createFilterNodes props (newGraph props bins frame))
    as [tail s1].
  unfold setStereoPan. cbn [filters emit with_log with_stereoPanner_pan].
  by destruct (setPlayerState_fields props
                 (setVolume props
                    (connect PannerNode DestinationNode
                       (connect AnalyserNode PannerNode
                          (connect tail AnalyserNode s1)))))
    as (_ & _ & -> & _).
Qed.

(** X14.  The instance [componentDidMount] leaves has one filter per
    entry of the equalizer, in order: the frequencies are the keys, the
    gains the values plus the pre-amp, and the kinds low shelf, peaking
    ..., high shelf. *)
Theorem componentDidMount_chain props bands bins frame :
  equalizer props = Some bands →
  let s := componentDidMount props bins frame in
  let n := length bands in
  frequency_value <$> filters s = Number <$> Object_keys bands
  ∧ gain_value <$> filters s
    = (λ v, v + default 0 (preAmp props)) <$> Object_values bands
  ∧ type <$> filters s = (λ i, stageKind i n) <$> seq 0 n.
Proof.
  intros Hb s n. subst s. rewrite componentDidMount_filters_eq.
  destruct (createFilterNodes_filters props bands
              (newGraph props bins frame) Hb) as (-> & _).
  cbn [filters newGraph connect with_connections app].
  split_and!; apply list_eq; intros i;
    rewrite !list_lookup_fmap, list_lookup_imap.
  - unfold Object_keys. rewrite list_lookup_fmap.
    destruct (bands !! i) as [e|]; [|done]. cbn.
    unfold newFilter. by destruct (first_or_last _ _).
  - unfold Object_values. rewrite list_lookup_fmap.
    destruct (bands !! i) as [e|]; [|done]. cbn.
    unfold newFilter. by destruct (first_or_last _ _).
  - destruct (bands !! i) as [e|] eqn:Hi.
    + apply lookup_lt_Some in Hi as Hlt.
      rewrite lookup_seq_lt by done. cbn.
      unfold newFilter, stageKind. rewrite length_Object_keys. fold n.
      by destruct (first_or_last i n).
    + apply lookup_ge_None in Hi.
      by rewrite lookup_seq_ge by done.
Qed.

(** X13.  A component mounted without an equalizer has no filter and
    never gets one.  An equalizer given later is detected only through a
    change of the pre-amp; the update then throws if that equalizer has an
    entry, and otherwise the equalizer is ignored. *)
Theorem equalizer_added_after_mount mountProps props bins frame :
  equalizer mountProps = None →
  let s := componentDidMount mountProps bins frame in
  let r := componentDidUpdate mountProps props s in
  filters s = []
  ∧ filters r.2 = []
  ∧ (shouldUpdateEqualizer mountProps props
     = strict_neq (preAmp props) (preAmp mountProps))
  ∧ (r.1 = TypeError
     ↔ strict_neq (preAmp props) (preAmp mountProps) = true
       ∧ default [] (equalizer props) ≠ []).
Proof.
  intros Hm s r.
  assert (Hs : filters s = []).
  { apply length_zero_iff_nil. unfold s.
    by rewrite componentDidMount_filters, Hm. }
  assert (Hdet : shouldUpdateEqualizer mountProps props
                 = strict_neq (preAmp props) (preAmp mountProps)).
  { unfold shouldUpdateEqualizer. rewrite Hm.
    by destruct (equalizer props). }
  destruct (updateTransport_frame mountProps props s) as (Hf & _).
  set (s1 := updateTransport mountProps props s) in *.
  assert (Hr : r = updateEqualizer mountProps props s1) by done.
  split_and!; [done| |done|].
  - apply length_zero_iff_nil. rewrite Hr. unfold updateEqualizer.
    destruct (shouldUpdateEqualizer mountProps props).
    + destruct (forEach_patchGain_filters (default 0 (preAmp props))
                  (Object_values (default [] (equalizer props))) 0 s1)
        as (-> & _).
      by rewrite Hf, Hs.
    + cbn. by rewrite Hf, Hs.
  - rewrite Hr. unfold updateEqualizer. rewrite Hdet.
    destruct (strict_neq (preAmp props) (preAmp mountProps)); cycle 1.
    { cbn. split; [done|]. by intros [? _]. }
    destruct (default [] (equalizer props)) as [|e l] eqn:He.
    + cbn. split; [done|]. by intros [_ ?].
    + destruct (forEach_patchGain_overrun (default 0 (preAmp props))
                  (Object_values (e :: l)) 0 s1) as [-> _].
      * lia.
      * rewrite Hf, Hs. cbn. lia.
      * done.
Qed.

End Component.

(** ** Closed instances *)

Example createFilterNodes_three_bands :
  let s := (createFilterNodes Number_of_digits defaultBiquadFilter
              (equalizerProps (Some bands3) (Some 2))
              (newGraph (equalizerProps (Some bands3) (Some 2)) [] 1)).2 in
  type <$> filters s = [lowshelf; peaking; highshelf]
  ∧ frequency_value <$> filters s = [60; 310; 3000]
  ∧ qValues s = [None; Some (620 # 2940); None]
  ∧ connections s
    = [(SourceNode, GainNode); (GainNode, BiquadNode 0);
       (BiquadNode 0, BiquadNode 1); (BiquadNode 1, BiquadNode 2)].
Proof. vm_compute. done. Qed.

Example formatDataVizByFrequency_four_bands :
  formatDataVizByFrequency Number_of_digits
    (equalizerProps (Some bands4) None) ramp
  = [Some 0; Some 0; Some 2; Some 9]%Z.
Proof. vm_compute. reflexivity. Qed.

(** *** Graph construction *)

Lemma createFilterNodes_stage_kinds_witness :
  let props := equalizerProps (Some bands3) None in
  let s := newGraph props [] 1 in
  equalizer props = Some bands3
  ∧ bands3 ≠ []
  ∧ filters s = []
  ∧ length (filters (createFilterNodes Number_of_digits defaultBiquadFilter
                       props s).2) = 3%nat.
Proof.
  intros props s.
  assert (H1 : equalizer props = Some bands3) by reflexivity.
  assert (H2 : bands3 ≠ []) by discriminate.
  assert (H3 : filters s = []) by reflexivity.
  split_and!; [exact H1 | exact H2 | exact H3 |].
  exact (proj1 (createFilterNodes_stage_kinds Number_of_digits
                  defaultBiquadFilter props bands3 s H1 H2 H3)).
Defined.

Lemma createFilterNodes_qValues_witness :
  let props := equalizerProps (Some bands3) None in
  let s := newGraph props [] 1 in
  equalizer props = Some bands3
  ∧ filters s = []
  ∧ length (qValues (createFilterNodes Number_of_digits defaultBiquadFilter
                       props s).2) = 3%nat.
Proof.
  intros props s.
  assert (H1 : equalizer props = Some bands3) by reflexivity.
  assert (H3 : filters s = []) by reflexivity.
  split_and!; [exact H1 | exact H3 |].
  exact (proj1 (createFilterNodes_qValues Number_of_digits
                  defaultBiquadFilter props bands3 s H1 H3)).
Defined.

(** *** The equalizer on update *)

(** C3 as stated fails: after an update that replaces the key [310] by
    [1000] (and changes the gains), the chain is not the one a rebuild
    from the new equalizer gives; its stages keep the frequencies and the
    Q of the construction, and only the gains are the new ones. *)
Lemma changed_keys_patch_gains_only :
  let prevProps := equalizerProps (Some bands3) None in
  let props := equalizerProps (Some bands3') None in
  let s := componentDidMount Number_of_digits defaultBiquadFilter
             prevProps [] 1 in
  let s' := (componentDidUpdate Number_of_digits String_of_integer
               prevProps props s).2 in
  let rebuilt := componentDidMount Number_of_digits defaultBiquadFilter
                   props [] 1 in
  Object_keys bands3' ≠ Object_keys bands3
  ∧ filters s' ≠ filters rebuilt
  ∧ frequency_value <$> filters s' = [60; 310; 3000]
  ∧ frequency_value <$> filters rebuilt = [60; 1000; 3000]
  ∧ Q_value <$> filters s' = Q_value <$> filters s
  ∧ gain_value <$> filters s' = [1; 2; 3]
  ∧ connections s' = connections s.
Proof.
  vm_compute. split_and!; try reflexivity; discriminate.
Qed.

Lemma update_patches_in_place_witness :
  let prevProps := equalizerProps (Some bands3) None in
  let props := equalizerProps (Some bands3') None in
  let s := componentDidMount Number_of_digits defaultBiquadFilter
             prevProps [] 1 in
  let s' := (componentDidUpdate Number_of_digits String_of_integer
               prevProps props s).2 in
  length (filters s') = length (filters s)
  ∧ qValues s' = qValues s
  ∧ connections s' = connections s.
Proof.
  intros prevProps props s s'.
  pose proof (update_patches_in_place Number_of_digits String_of_integer
                prevProps props s) as (H1 & H2 & H3 & _).
  split_and!; [exact H1 | exact H2 | exact H3].
Defined.

Lemma gain_patch_only_writes_gain_witness :
  let prevProps := equalizerProps (Some bands3) None in
  let props := equalizerProps (Some bands3) (Some 2) in
  let s := componentDidMount Number_of_digits defaultBiquadFilter
             prevProps [] 1 in
  shouldUpdateEqualizer String_of_integer prevProps props = true
  ∧ length (filters (componentDidUpdate Number_of_digits String_of_integer
                       prevProps props s).2)
    = length (filters s).
Proof.
  intros prevProps props s.
  assert (H : shouldUpdateEqualizer String_of_integer prevProps props
              = true) by reflexivity.
  split; [exact H|].
  exact (proj1 (gain_patch_only_writes_gain Number_of_digits
                  String_of_integer prevProps props s H)).
Defined.

Lemma gain_patch_index_bounds_witness :
  let prevProps := equalizerProps (Some bands3) None in
  let props := equalizerProps (Some bands2) (Some 2) in
  let s := componentDidMount Number_of_digits defaultBiquadFilter
             prevProps [] 1 in
  (length (default [] (equalizer props)) ≤ length (filters s))%nat
  ∧ (componentDidUpdate Number_of_digits String_of_integer
       prevProps props s).1 = Normal.
Proof.
  intros prevProps props s.
  assert (H : (length (default [] (equalizer props))
               ≤ length (filters s))%nat) by (vm_compute; lia).
  split; [exact H|].
  exact (proj1 (proj1 (gain_patch_index_bounds Number_of_digits
                         String_of_integer defaultBiquadFilter)
                  prevProps props s H)).
Defined.

Example gain_patch_past_the_end :
  let prevProps := equalizerProps (Some bands1) None in
  let props := equalizerProps (Some bands2) None in
  let s := componentDidMount Number_of_digits defaultBiquadFilter
             prevProps [] 1 in
  let r := componentDidUpdate Number_of_digits String_of_integer
             prevProps props s in
  r.1 = TypeError
  ∧ issued s r.2 = [pan_set 0; filter_gain_set 0 0; filter_undefined 1].
Proof. vm_compute. done. Qed.

(** *** Transport *)

(** C5 as stated fails: from position [10] to position [0] the position
    changed and the new one is below the previous one, yet no seek is
    issued. *)
Lemma rewind_to_zero_issues_no_seek :
  let prevProps := positionProps (Some 10) in
  let props := positionProps (Some 0) in
  let s := componentDidMount Number_of_digits defaultBiquadFilter
             prevProps [] 1 in
  ¬ 0 == 10
  ∧ 0 < 10
  ∧ shouldUpdatePosition prevProps props = false
  ∧ issued s (updatePosition prevProps props s) = [].
Proof. vm_compute. split_and!; try reflexivity; discriminate. Qed.

Lemma seek_decision_witness :
  let prevProps := positionProps (Some 10) in
  let props := positionProps (Some 9) in
  let s := componentDidMount Number_of_digits defaultBiquadFilter
             prevProps [] 1 in
  position props = Some 9
  ∧ ¬ 9 == 0
  ∧ (9 < 10 ∨ 1 < 9 - 10)
  ∧ issued s (updatePosition prevProps props s) = [audio_set_currentTime 9].
Proof.
  intros prevProps props s.
  assert (H1 : position props = Some 9) by reflexivity.
  assert (H2 : ¬ 9 == 0) by discriminate.
  assert (H3 : 9 < 10 ∨ 1 < 9 - 10) by (left; reflexivity).
  split_and!; [exact H1 | exact H2 | exact H3 |].
  exact (proj2 (proj1 (proj2 (proj1 seek_decision prevProps props s 9
                                 H1 H2))) H3).
Defined.

Example seek_examples :
  shouldUpdatePosition (positionProps (Some 10)) (positionProps (Some (21 # 2)))
  = false
  ∧ shouldUpdatePosition (positionProps (Some 10)) (positionProps (Some 12))
    = true
  ∧ shouldUpdatePosition (positionProps (Some 10)) (positionProps (Some 9))
    = true
  ∧ shouldUpdatePosition (positionProps (Some 10)) (positionProps (Some 11))
    = false.
Proof. vm_compute. done. Qed.

Lemma setPlayerState_commands_witness :
  let props :=
    {| url := "sound.mp3"; playStatus := Some "STOPPED"; position := None;
       volume := None; onPlaying := false; onFinishedPlaying := false;
       onLoading := false; onLoad := false; onVisualizationChange := false;
       equalizer := None; preAmp := None; stereoPan := None |} in
  let s := newGraph props [] 1 in
  playStatus props = Some "STOPPED"
  ∧ List.filter is_transport (issued s (setPlayerState props s))
    = [audio_pause; audio_set_currentTime 0].
Proof.
  intros props s.
  assert (H : playStatus props = Some "STOPPED") by reflexivity.
  split; [exact H|].
  exact (proj1 (proj2 (setPlayerState_commands props s)) H).
Defined.

(** *** The same props twice *)

(** C8 fails on the code when [stereoPan] is left out: the second
    application of the same props writes the pan again. *)
Theorem same_props_write_the_pan_again :
  let props := equalizerProps (Some bands3) None in
  let s := componentDidMount Number_of_digits defaultBiquadFilter
             props [] 1 in
  let r := componentDidUpdate Number_of_digits String_of_integer
             props props s in
  stereoPan props = None
  ∧ r.1 = Normal
  ∧ issued s r.2 = [pan_set 0].
Proof. vm_compute. done. Qed.

(** *** The spectrum *)

Lemma checkpoint_scan_witness :
  let props := equalizerProps (Some bands4) None in
  equalizer props = Some bands4
  ∧ (length (formatDataVizByFrequency Number_of_digits props ramp) ≤ 4)%nat.
Proof.
  intros props.
  assert (H : equalizer props = Some bands4) by reflexivity.
  split; [exact H|].
  exact (proj1 (proj2 (proj2 (proj2 (proj2
           (checkpoint_scan Number_of_digits props bands4 ramp H)))))).
Defined.

(** C9 as stated fails in its second example: [60] and [80] are within
    one step of each other, yet the window of each band holds a visited
    checkpoint and each band gets its value. *)
Lemma close_bands_both_get_a_value :
  let props := equalizerProps (Some closeBands) None in
  let frequencies := Number_of_digits <$> Object_keys closeBands in
  frequencies = [60; 80]
  ∧ Qabs (80 - 60) < HERTZ_ITER
  ∧ checkpoint 3 <= 80 + HERTZ_ITER
  ∧ in_window frequencies 0 (checkpoint 3)
  ∧ checkpoint 4 <= 80 + HERTZ_ITER
  ∧ in_window frequencies 1 (checkpoint 4)
  ∧ formatDataVizByFrequency Number_of_digits props [10; 11; 12; 13; 14; 15]%Z
    = [Some 13; Some 14]%Z.
Proof.
  intros props frequencies.
  split_and!; try (vm_compute; done).
  - exists 60. split_and!; vm_compute; done.
  - exists 80. split_and!; vm_compute; done.
Qed.

Lemma cursor_stalls_witness :
  let props := equalizerProps (Some multipleBands) None in
  let frequencies := Number_of_digits <$> Object_keys multipleBands in
  equalizer props = Some multipleBands
  ∧ frequencies !! 1%nat = Some 234
  ∧ 234 == checkpoint 10
  ∧ (length (formatDataVizByFrequency Number_of_digits props ramp) ≤ 1)%nat.
Proof.
  intros props frequencies.
  assert (H1 : equalizer props = Some multipleBands) by reflexivity.
  assert (H2 : frequencies !! 1%nat = Some 234) by reflexivity.
  assert (H3 : 234 == checkpoint 10) by reflexivity.
  split_and!; [exact H1 | exact H2 | exact H3 |].
  exact (proj1 (proj2 (proj2
           (cursor_stalls Number_of_digits props multipleBands ramp H1)))
           1%nat 234 10%nat H2 H3).
Defined.

Example cursor_stalls_examples :
  formatDataVizByFrequency Number_of_digits
    (equalizerProps (Some multipleBands) None) ramp = [Some 0%Z]
  ∧ formatDataVizByFrequency Number_of_digits
      (equalizerProps (Some sharedBands) None) ramp = [Some 0%Z]
  ∧ in_window (Number_of_digits <$> Object_keys sharedBands) 1 (checkpoint 3).
Proof.
  split_and!; try (vm_compute; done).
  exists 65. split_and!; vm_compute; done.
Qed.

(** *** Further instances *)

Lemma createFilterNodes_wiring_witness :
  let props := equalizerProps (Some bands3) None in
  let s := newGraph props [] 1 in
  (1 < length (default [] (equalizer props)))%nat
  ∧ connections (createFilterNodes Number_of_digits defaultBiquadFilter
                   props s).2 !! 2%nat
    = Some (BiquadNode 0, BiquadNode 1).
Proof.
  intros props s.
  assert (H : (1 < length (default [] (equalizer props)))%nat)
    by (cbn; lia).
  split; [exact H|].
  exact (proj1 (proj2 (proj2 (createFilterNodes_wiring Number_of_digits
                                 defaultBiquadFilter props s)))
           1%nat H).
Defined.

Lemma gain_follows_volume_witness :
  let prevProps := mixProps (Some 50) None in
  let props := mixProps (Some 80) None in
  let s := componentDidMount Number_of_digits defaultBiquadFilter
             prevProps [] 1 in
  gainNode_gain s == default 100 (volume prevProps) / 100
  ∧ gainNode_gain (componentDidUpdate Number_of_digits String_of_integer
                     prevProps props s).2
    == default 100 (volume props) / 100.
Proof.
  intros prevProps props s.
  assert (H : gainNode_gain s == default 100 (volume prevProps) / 100)
    by reflexivity.
  split; [exact H|].
  exact (proj1 (proj2 (gain_follows_volume Number_of_digits
                         String_of_integer defaultBiquadFilter)
                  prevProps props s H)).
Defined.

Lemma pan_follows_stereoPan_witness :
  let prevProps := mixProps None None in
  let props := mixProps None (Some (1 # 2)) in
  let s := componentDidMount Number_of_digits defaultBiquadFilter
             prevProps [] 1 in
  stereoPanner_pan s == default 0 (stereoPan prevProps)
  ∧ stereoPanner_pan (componentDidUpdate Number_of_digits String_of_integer
                        prevProps props s).2
    == default 0 (stereoPan props).
Proof.
  intros prevProps props s.
  assert (H : stereoPanner_pan s == default 0 (stereoPan prevProps))
    by reflexivity.
  split; [exact H|].
  exact (proj2 (pan_follows_stereoPan Number_of_digits String_of_integer
                  defaultBiquadFilter) prevProps props s H).
Defined.

Lemma componentDidUpdate_throws_witness :
  let prevProps := equalizerProps (Some bands1) None in
  let props := equalizerProps (Some bands2) None in
  let s := componentDidMount Number_of_digits defaultBiquadFilter
             prevProps [] 1 in
  (shouldUpdateEqualizer String_of_integer prevProps props = true
   ∧ (length (filters s) < length (default [] (equalizer props)))%nat)
  ∧ (componentDidUpdate Number_of_digits String_of_integer
       prevProps props s).1 = TypeError.
Proof.
  intros prevProps props s.
  assert (H : shouldUpdateEqualizer String_of_integer prevProps props = true
              ∧ (length (filters s)
                 < length (default [] (equalizer props)))%nat)
    by (split; [reflexivity | vm_compute; lia]).
  split; [exact H|].
  exact (proj2 (componentDidUpdate_throws Number_of_digits
                  String_of_integer prevProps props s) H).
Defined.

Lemma scan_reads_fixed_bins_witness :
  let props := equalizerProps (Some bands4) None in
  equalizer props = Some bands4
  ∧ (viz_iterations (Number_of_digits <$> Object_keys bands4)
     ≤ length ramp)%nat
  ∧ Forall is_Some (formatDataVizByFrequency Number_of_digits props ramp).
Proof.
  intros props.
  assert (H1 : equalizer props = Some bands4) by reflexivity.
  assert (H2 : (viz_iterations (Number_of_digits <$> Object_keys bands4)
                ≤ length ramp)%nat)
    by (apply Nat.leb_le; vm_compute; reflexivity).
  split_and!; [exact H1 | exact H2 |].
  exact (proj2 (proj2 (proj2
           (proj2 (scan_reads_fixed_bins Number_of_digits)
              props bands4 ramp H1))) H2).
Defined.

Lemma scan_covers_every_band_witness :
  let props := equalizerProps (Some bands4) None in
  let frequencies := Number_of_digits <$> Object_keys bands4 in
  equalizer props = Some bands4
  ∧ (∀ j f, frequencies !! j = Some f →
       0 <= f ∧ ∀ m, ¬ f == checkpoint m)
  ∧ (∀ j f f', frequencies !! j = Some f → frequencies !! S j = Some f' →
       f + HERTZ_ITER <= f')
  ∧ formatDataVizByFrequency Number_of_digits props ramp
    = (λ f, ramp !! band_bin f) <$> frequencies.
Proof.
  intros props frequencies.
  assert (H1 : equalizer props = Some bands4) by reflexivity.
  assert (Hfr : frequencies = [60; 310; 3000; 14000]) by reflexivity.
  assert (H2 : ∀ j f, frequencies !! j = Some f →
                 0 <= f ∧ ∀ m, ¬ f == checkpoint m).
  { intros j f Hj. rewrite Hfr in Hj.
    destruct j as [|[|[|[|j]]]]; cbn in Hj; try discriminate;
      injection Hj as <-; (split; [discriminate|]);
      intros m Hm; unfold checkpoint, Qeq in Hm; cbn in Hm; lia. }
  assert (H3 : ∀ j f f', frequencies !! j = Some f →
                 frequencies !! S j = Some f' → f + HERTZ_ITER <= f').
  { intros j f f' Hj Hj'. rewrite Hfr in Hj, Hj'.
    destruct j as [|[|[|[|j]]]]; cbn in Hj, Hj'; try discriminate;
      injection Hj as <-; injection Hj' as <-; discriminate. }
  split_and!; [exact H1 | exact H2 | exact H3 |].
  exact (scan_covers_every_band Number_of_digits props bands4 ramp
           H1 H2 H3).
Defined.

Lemma qValues_positive_witness :
  let props := equalizerProps (Some bands3) None in
  let s := newGraph props [] 1 in
  equalizer props = Some bands3
  ∧ qValues (createFilterNodes Number_of_digits defaultBiquadFilter
               props s).2 !! 1%nat = Some (Some (620 # 2940))
  ∧ 0 < 620 # 2940.
Proof.
  intros props s.
  assert (H1 : equalizer props = Some bands3) by reflexivity.
  assert (H2 : ∀ i k, Object_keys bands3 !! i = Some k →
                 0 < Number_of_digits k).
  { intros i k Hi.
    destruct i as [|[|[|i]]]; cbn in Hi; try discriminate;
      injection Hi as <-; reflexivity. }
  assert (H3 : ∀ i k k', Object_keys bands3 !! i = Some k →
                 Object_keys bands3 !! S i = Some k' →
                 Number_of_digits k < Number_of_digits k').
  { intros i k k' Hi Hi'.
    destruct i as [|[|[|i]]]; cbn in Hi, Hi'; try discriminate;
      injection Hi as <-; injection Hi' as <-; reflexivity. }
  assert (H4 : qValues (createFilterNodes Number_of_digits
                          defaultBiquadFilter props s).2 !! 1%nat
               = Some (Some (620 # 2940))) by reflexivity.
  split_and!; [exact H1 | exact H4 |].
  exact (proj1 (qValues_positive Number_of_digits defaultBiquadFilter
                  props bands3 s H1 H2 H3 1%nat (620 # 2940) H4)).
Defined.

Lemma equalizer_added_after_mount_witness :
  let mountProps := equalizerProps None None in
  let props := equalizerProps (Some bands1) (Some 1) in
  let s := componentDidMount Number_of_digits defaultBiquadFilter
             mountProps [] 1 in
  equalizer mountProps = None
  ∧ (componentDidUpdate Number_of_digits String_of_integer
       mountProps props s).1 = TypeError.
Proof.
  intros mountProps props s.
  assert (H : equalizer mountProps = None) by reflexivity.
  split; [exact H|].
  apply (proj2 (proj2 (proj2 (proj2
           (equalizer_added_after_mount Number_of_digits String_of_integer
              defaultBiquadFilter mountProps props [] 1 H))))).
  split; [reflexivity | discriminate].
Defined.

Lemma componentDidMount_chain_witness :
  let props := equalizerProps (Some bands3) (Some 2) in
  equalizer props = Some bands3
  ∧ type <$> filters (componentDidMount Number_of_digits
                        defaultBiquadFilter props [] 1)
    = (λ i, stageKind i 3) <$> seq 0 3.
Proof.
  intros props.
  assert (H : equalizer props = Some bands3) by reflexivity.
  split; [exact H|].
  exact (proj2 (proj2 (componentDidMount_chain Number_of_digits
                         defaultBiquadFilter props bands3 [] 1 H))).
Defined.

Example update_commands_seek_then_stop :
  let prevProps := positionProps (Some 10) in
  let props :=
    {| url := "sound.mp3"; playStatus := Some "STOPPED";
       position := Some 30; volume := None; onPlaying := false;
       onFinishedPlaying := false; onLoading := false; onLoad := false;
       onVisualizationChange := false; equalizer := None; preAmp := None;
       stereoPan := None |} in
  let s := componentDidMount Number_of_digits defaultBiquadFilter
             prevProps [] 1 in
  List.filter is_transport
    (issued s (componentDidUpdate Number_of_digits String_of_integer
                 prevProps props s).2)
  = [audio_set_currentTime 30; audio_pause; audio_set_currentTime 0].
Proof. vm_compute. reflexivity. Qed.
